(** * Whatsbot: the message formatter (services/messageFormatter.js)

    A shallow embedding of the [MessageFormatter] class and a verification of
    its documented behaviour.

    A JavaScript string is a sequence of UTF-16 code units.  The four style
    regular expressions and the two quote regular expressions carry no [u]
    flag and [split('')] cuts a string between code units, so those passes
    work on code units.  Only [emojiRegex] carries the [u] flag and therefore
    sees code points. *)

From Stdlib Require Import ZArith List Bool Lia.
Import ListNotations.
Open Scope Z_scope.

(** ** Strings *)

(** A string is the list of its UTF-16 code units. *)
Definition jsstring := list Z.

Definition is_lead (u : Z) : bool := (0xD800 <=? u) && (u <=? 0xDBFF).
Definition is_trail (u : Z) : bool := (0xDC00 <=? u) && (u <=? 0xDFFF).
Definition is_surrogate (u : Z) : bool := (0xD800 <=? u) && (u <=? 0xDFFF).

(** One code point of a string, kept as the code units that spell it: a lead
    surrogate followed by a trail surrogate, or any single code unit. *)
Definition codepoint : Type := list Z.

(** The scalar value a code point stands for (a lone surrogate stands for
    itself). *)
Definition cp_value (c : codepoint) : Z :=
  match c with
  | [h; l] => (h - 0xD800) * 0x400 + (l - 0xDC00) + 0x10000
  | [u] => u
  | _ => 0
  end.

(** The code points of a string: how a [u]-flag regular expression reads
    its input. *)
Fixpoint codePoints (s : jsstring) : list codepoint :=
  match s with
  | [] => []
  | h :: t =>
      match t with
      | l :: t' =>
          if is_lead h && is_trail l then [h; l] :: codePoints t'
          else [h] :: codePoints t
      | [] => [[h]]
      end
  end.

(** ** Regular expressions

    Six of the seven regular expressions of the class have the one shape
    [open ([^x]+) close]: a literal, a captured greedy non-empty run of
    characters other than [x], a literal. *)

Record span_regex := SpanRegex {
  sp_open : list Z;
  sp_class : Z;
  sp_close : list Z
}.

(** Matching a literal at the head of the input; what is left of the input
    on success. *)
Fixpoint match_literal (p s : list Z) : option (list Z) :=
  match p with
  | [] => Some s
  | c :: p' =>
      match s with
      | [] => None
      | d :: s' => if d =? c then match_literal p' s' else None
      end
  end.

(** The greedy quantifier with backtracking: [acc] is what the class has
    taken so far.  One more character is taken while the class accepts it;
    the closing literal is only tried where taking more has failed. *)
Fixpoint greedy (x : Z) (close acc s : list Z) {struct s}
  : option (list Z * list Z) :=
  let stop :=
    match match_literal close s with
    | Some rest => Some (acc, rest)
    | None => None
    end in
  match s with
  | [] => stop
  | c :: s' =>
      if c =? x then stop
      else match greedy x close (acc ++ [c]) s' with
           | Some r => Some r
           | None => stop
           end
  end.

(** One match attempt at the head of the input: capture group 1 and the
    input after the match. *)
Definition exec_span (r : span_regex) (s : list Z) : option (list Z * list Z) :=
  match match_literal (sp_open r) s with
  | Some (c :: s') =>
      if c =? sp_class r then None
      else greedy (sp_class r) (sp_close r) [c] s'
  | _ => None
  end.

(** [String.prototype.replace] with a global regular expression: the input
    is scanned from the left; where the expression matches, the replacement
    is emitted and the scan goes on behind the match; elsewhere the
    character is copied and the scan moves one character on.  No match of
    the expressions below is empty, so [length s] steps are enough. *)
Fixpoint replace_loop {A : Type} (exec : list A -> option (list A * list A))
    (emit : A -> list Z) (replacer : list A -> list Z)
    (fuel : nat) (s : list A) : list Z :=
  match fuel with
  | O => []
  | S n =>
      match s with
      | [] => []
      | a :: t =>
          match exec s with
          | Some (g, rest) => replacer g ++ replace_loop exec emit replacer n rest
          | None => emit a ++ replace_loop exec emit replacer n t
          end
      end
  end.

Definition replace {A : Type} (exec : list A -> option (list A * list A))
    (emit : A -> list Z) (replacer : list A -> list Z) (s : list A) : list Z :=
  replace_loop exec emit replacer (length s) s.

(** [replace] for the code-unit expressions. *)
Definition replace_span (r : span_regex) (replacer : list Z -> list Z)
    (s : jsstring) : jsstring :=
  replace (exec_span r) (fun u => [u]) replacer s.

(** ** Glyph tables *)

(** Property lookup in an object literal whose keys are one-character
    strings. *)
Fixpoint lookup (m : list (Z * list Z)) (k : Z) : option (list Z) :=
  match m with
  | [] => None
  | (k', v) :: m' => if k =? k' then Some v else lookup m' k
  end.

(** [text.split('').map(char => map[char] || char).join('')]: every value
    of the three tables is a non-empty string. *)
Definition translit (m : list (Z * list Z)) (text : jsstring) : jsstring :=
  flat_map (fun char => match lookup m char with
                        | Some g => g
                        | None => [char]
                        end) text.

Definition boldMap : list (Z * list Z) :=
  [
   (0x41, [0xD835; 0xDDD4]); (0x42, [0xD835; 0xDDD5]); (0x43, [0xD835; 0xDDD6]); (0x44, [0xD835; 0xDDD7]);
   (0x45, [0xD835; 0xDDD8]); (0x46, [0xD835; 0xDDD9]); (0x47, [0xD835; 0xDDDA]); (0x48, [0xD835; 0xDDDB]);
   (0x49, [0xD835; 0xDDDC]); (0x4A, [0xD835; 0xDDDD]); (0x4B, [0xD835; 0xDDDE]); (0x4C, [0xD835; 0xDDDF]);
   (0x4D, [0xD835; 0xDDE0]); (0x4E, [0xD835; 0xDDE1]); (0x4F, [0xD835; 0xDDE2]); (0x50, [0xD835; 0xDDE3]);
   (0x51, [0xD835; 0xDDE4]); (0x52, [0xD835; 0xDDE5]); (0x53, [0xD835; 0xDDE6]); (0x54, [0xD835; 0xDDE7]);
   (0x55, [0xD835; 0xDDE8]); (0x56, [0xD835; 0xDDE9]); (0x57, [0xD835; 0xDDEA]); (0x58, [0xD835; 0xDDEB]);
   (0x59, [0xD835; 0xDDEC]); (0x5A, [0xD835; 0xDDED]); (0x61, [0xD835; 0xDDEE]); (0x62, [0xD835; 0xDDEF]);
   (0x63, [0xD835; 0xDDF0]); (0x64, [0xD835; 0xDDF1]); (0x65, [0xD835; 0xDDF2]); (0x66, [0xD835; 0xDDF3]);
   (0x67, [0xD835; 0xDDF4]); (0x68, [0xD835; 0xDDF5]); (0x69, [0xD835; 0xDDF6]); (0x6A, [0xD835; 0xDDF7]);
   (0x6B, [0xD835; 0xDDF8]); (0x6C, [0xD835; 0xDDF9]); (0x6D, [0xD835; 0xDDFA]); (0x6E, [0xD835; 0xDDFB]);
   (0x6F, [0xD835; 0xDDFC]); (0x70, [0xD835; 0xDDFD]); (0x71, [0xD835; 0xDDFE]); (0x72, [0xD835; 0xDDFF]);
   (0x73, [0xD835; 0xDE00]); (0x74, [0xD835; 0xDE01]); (0x75, [0xD835; 0xDE02]); (0x76, [0xD835; 0xDE03]);
   (0x77, [0xD835; 0xDE04]); (0x78, [0xD835; 0xDE05]); (0x79, [0xD835; 0xDE06]); (0x7A, [0xD835; 0xDE07]);
   (0x30, [0xD835; 0xDFEC]); (0x31, [0xD835; 0xDFED]); (0x32, [0xD835; 0xDFEE]); (0x33, [0xD835; 0xDFEF]);
   (0x34, [0xD835; 0xDFF0]); (0x35, [0xD835; 0xDFF1]); (0x36, [0xD835; 0xDFF2]); (0x37, [0xD835; 0xDFF3]);
   (0x38, [0xD835; 0xDFF4]); (0x39, [0xD835; 0xDFF5]) ].

Definition italicMap : list (Z * list Z) :=
  [
   (0x41, [0xD835; 0xDE08]); (0x42, [0xD835; 0xDE09]); (0x43, [0xD835; 0xDE0A]); (0x44, [0xD835; 0xDE0B]);
   (0x45, [0xD835; 0xDE0C]); (0x46, [0xD835; 0xDE0D]); (0x47, [0xD835; 0xDE0E]); (0x48, [0xD835; 0xDE0F]);
   (0x49, [0xD835; 0xDE10]); (0x4A, [0xD835; 0xDE11]); (0x4B, [0xD835; 0xDE12]); (0x4C, [0xD835; 0xDE13]);
   (0x4D, [0xD835; 0xDE14]); (0x4E, [0xD835; 0xDE15]); (0x4F, [0xD835; 0xDE16]); (0x50, [0xD835; 0xDE17]);
   (0x51, [0xD835; 0xDE18]); (0x52, [0xD835; 0xDE19]); (0x53, [0xD835; 0xDE1A]); (0x54, [0xD835; 0xDE1B]);
   (0x55, [0xD835; 0xDE1C]); (0x56, [0xD835; 0xDE1D]); (0x57, [0xD835; 0xDE1E]); (0x58, [0xD835; 0xDE1F]);
   (0x59, [0xD835; 0xDE20]); (0x5A, [0xD835; 0xDE21]); (0x61, [0xD835; 0xDE22]); (0x62, [0xD835; 0xDE23]);
   (0x63, [0xD835; 0xDE24]); (0x64, [0xD835; 0xDE25]); (0x65, [0xD835; 0xDE26]); (0x66, [0xD835; 0xDE27]);
   (0x67, [0xD835; 0xDE28]); (0x68, [0xD835; 0xDE29]); (0x69, [0xD835; 0xDE2A]); (0x6A, [0xD835; 0xDE2B]);
   (0x6B, [0xD835; 0xDE2C]); (0x6C, [0xD835; 0xDE2D]); (0x6D, [0xD835; 0xDE2E]); (0x6E, [0xD835; 0xDE2F]);
   (0x6F, [0xD835; 0xDE30]); (0x70, [0xD835; 0xDE31]); (0x71, [0xD835; 0xDE32]); (0x72, [0xD835; 0xDE33]);
   (0x73, [0xD835; 0xDE34]); (0x74, [0xD835; 0xDE35]); (0x75, [0xD835; 0xDE36]); (0x76, [0xD835; 0xDE37]);
   (0x77, [0xD835; 0xDE38]); (0x78, [0xD835; 0xDE39]); (0x79, [0xD835; 0xDE3A]); (0x7A, [0xD835; 0xDE3B]) ].

Definition monospaceMap : list (Z * list Z) :=
  [
   (0x41, [0xD835; 0xDE70]); (0x42, [0xD835; 0xDE71]); (0x43, [0xD835; 0xDE72]); (0x44, [0xD835; 0xDE73]);
   (0x45, [0xD835; 0xDE74]); (0x46, [0xD835; 0xDE75]); (0x47, [0xD835; 0xDE76]); (0x48, [0xD835; 0xDE77]);
   (0x49, [0xD835; 0xDE78]); (0x4A, [0xD835; 0xDE79]); (0x4B, [0xD835; 0xDE7A]); (0x4C, [0xD835; 0xDE7B]);
   (0x4D, [0xD835; 0xDE7C]); (0x4E, [0xD835; 0xDE7D]); (0x4F, [0xD835; 0xDE7E]); (0x50, [0xD835; 0xDE7F]);
   (0x51, [0xD835; 0xDE80]); (0x52, [0xD835; 0xDE81]); (0x53, [0xD835; 0xDE82]); (0x54, [0xD835; 0xDE83]);
   (0x55, [0xD835; 0xDE84]); (0x56, [0xD835; 0xDE85]); (0x57, [0xD835; 0xDE86]); (0x58, [0xD835; 0xDE87]);
   (0x59, [0xD835; 0xDE88]); (0x5A, [0xD835; 0xDE89]); (0x61, [0xD835; 0xDE8A]); (0x62, [0xD835; 0xDE8B]);
   (0x63, [0xD835; 0xDE8C]); (0x64, [0xD835; 0xDE8D]); (0x65, [0xD835; 0xDE8E]); (0x66, [0xD835; 0xDE8F]);
   (0x67, [0xD835; 0xDE90]); (0x68, [0xD835; 0xDE91]); (0x69, [0xD835; 0xDE92]); (0x6A, [0xD835; 0xDE93]);
   (0x6B, [0xD835; 0xDE94]); (0x6C, [0xD835; 0xDE95]); (0x6D, [0xD835; 0xDE96]); (0x6E, [0xD835; 0xDE97]);
   (0x6F, [0xD835; 0xDE98]); (0x70, [0xD835; 0xDE99]); (0x71, [0xD835; 0xDE9A]); (0x72, [0xD835; 0xDE9B]);
   (0x73, [0xD835; 0xDE9C]); (0x74, [0xD835; 0xDE9D]); (0x75, [0xD835; 0xDE9E]); (0x76, [0xD835; 0xDE9F]);
   (0x77, [0xD835; 0xDEA0]); (0x78, [0xD835; 0xDEA1]); (0x79, [0xD835; 0xDEA2]); (0x7A, [0xD835; 0xDEA3]);
   (0x30, [0xD835; 0xDFF6]); (0x31, [0xD835; 0xDFF7]); (0x32, [0xD835; 0xDFF8]); (0x33, [0xD835; 0xDFF9]);
   (0x34, [0xD835; 0xDFFA]); (0x35, [0xD835; 0xDFFB]); (0x36, [0xD835; 0xDFFC]); (0x37, [0xD835; 0xDFFD]);
   (0x38, [0xD835; 0xDFFE]); (0x39, [0xD835; 0xDFFF]) ].

Definition toBoldUnicode (text : jsstring) : jsstring := translit boldMap text.
Definition toItalicUnicode (text : jsstring) : jsstring := translit italicMap text.
Definition toMonospaceUnicode (text : jsstring) : jsstring := translit monospaceMap text.

(** [text.split('').map(char => char + '\u0336').join('')] *)
Definition toStrikethroughUnicode (text : jsstring) : jsstring :=
  flat_map (fun char => [char; 0x0336]) text.

(** ** The style passes *)

Definition boldRegex : span_regex := SpanRegex [0x2A] 0x2A [0x2A].
Definition italicRegex : span_regex := SpanRegex [0x5F] 0x5F [0x5F].
Definition strikethroughRegex : span_regex := SpanRegex [0x7E] 0x7E [0x7E].
Definition monospaceRegex : span_regex :=
  SpanRegex [0x60; 0x60; 0x60] 0x60 [0x60; 0x60; 0x60].

Definition convertBold (text : jsstring) : jsstring :=
  replace_span boldRegex toBoldUnicode text.
Definition convertItalic (text : jsstring) : jsstring :=
  replace_span italicRegex toItalicUnicode text.
Definition convertStrikethrough (text : jsstring) : jsstring :=
  replace_span strikethroughRegex toStrikethroughUnicode text.
Definition convertMonospace (text : jsstring) : jsstring :=
  replace_span monospaceRegex toMonospaceUnicode text.

(** ** Quotes

    [convertQuotes] makes two replacements.  The first one (line 83)
    matches a pair of straight double quotes U+0022 around an interior
    without U+0022, and its template writes U+0022 on both sides of [$1].
    The second one (line 84) matches a pair of U+0027 in the same way, but
    its second argument stands in the file as [''$1'']: every quote
    character of it is U+0027, so it is no string literal, the line is no
    JavaScript as it stands, and the template cannot be read off the file.
    What can be read is that [$1] stands once, between two pieces of text.
    The two pieces, what the template writes in front of [$1] and behind
    it, are therefore a parameter of the model ([QuoteTemplate]), and what
    is proved about the pipeline holds for every choice of them.
    [CurlyQuotes] is the choice the comment above the two lines announces,
    [StraightQuotes] the choice that follows the first replacement. *)

Definition doubleQuoteRegex : span_regex := SpanRegex [0x22] 0x22 [0x22].
Definition singleQuoteRegex : span_regex := SpanRegex [0x27] 0x27 [0x27].

Class QuoteTemplate := {
  singleQuoteOpen : jsstring;
  singleQuoteClose : jsstring
}.

Definition CurlyQuotes : QuoteTemplate :=
  {| singleQuoteOpen := [0x2018]; singleQuoteClose := [0x2019] |}.

Definition StraightQuotes : QuoteTemplate :=
  {| singleQuoteOpen := [0x27]; singleQuoteClose := [0x27] |}.

Definition convertQuotes {quotes : QuoteTemplate} (text : jsstring) : jsstring :=
  let text := replace_span doubleQuoteRegex (fun g => [0x22] ++ g ++ [0x22]) text in
  let text := replace_span singleQuoteRegex
                (fun g => singleQuoteOpen ++ g ++ singleQuoteClose) text in
  text.

(** ** Emoji spacing and the pipeline *)

(** The Unicode properties [Emoji_Presentation] and [Emoji] belong to the
    JavaScript engine, not to the repository: they are an interface here,
    two predicates on scalar values. *)
Class UnicodeData := {
  Emoji_Presentation : Z -> bool;
  Emoji : Z -> bool
}.

(** [regex.test(s)]: is there a match anywhere in the input? *)
Fixpoint test {A : Type} (exec : list A -> option (list A * list A))
    (s : list A) : bool :=
  match exec s with
  | Some _ => true
  | None => match s with
            | [] => false
            | _ :: t => test exec t
            end
  end.

(** U+200B ZERO WIDTH SPACE *)
Definition ZWSP : Z := 0x200B.

Section Pipeline.

Context {unicode : UnicodeData} {quotes : QuoteTemplate}.

(** [/(\p{Emoji_Presentation}|\p{Emoji}\uFE0F)/gu] at the head of the
    input: the first alternative that matches wins, nothing follows the
    group. *)
Definition exec_emoji (s : list codepoint) : option (list codepoint * list codepoint) :=
  match s with
  | [] => None
  | c :: rest =>
      if Emoji_Presentation (cp_value c) then Some ([c], rest)
      else if Emoji (cp_value c) then
        match rest with
        | v :: rest' =>
            if cp_value v =? 0xFE0F then Some ([c; v], rest') else None
        | [] => None
        end
      else None
  end.

(** [text.replace(emojiRegex, '$1\u200B')] *)
Definition improveEmojiSpacing (text : jsstring) : jsstring :=
  replace exec_emoji (fun c => c) (fun g => concat g ++ [0x200B])
    (codePoints text).

Definition convertToIOSStyle (text : jsstring) : jsstring :=
  let styledText := text in
  let styledText := convertBold styledText in
  let styledText := convertItalic styledText in
  let styledText := convertStrikethrough styledText in
  let styledText := convertMonospace styledText in
  let styledText := convertQuotes styledText in
  let styledText := improveEmojiSpacing styledText in
  styledText.

(** The spacer with [n] zero-width spaces behind every match;
    [improveEmojiSpacing] is the case [n = 1]. *)
Definition add_zwsp (n : nat) (text : jsstring) : jsstring :=
  replace exec_emoji (fun c => c) (fun g => concat g ++ repeat ZWSP n)
    (codePoints text).

(** [emojiRegex.test(text)] *)
Definition emojiTest (text : jsstring) : bool :=
  test exec_emoji (codePoints text).

(** The same scan, on code points and by structural recursion. *)
Fixpoint space_list (n : nat) (l : list codepoint) : list codepoint :=
  match l with
  | [] => []
  | c :: rest =>
      if Emoji_Presentation (cp_value c) then
        c :: repeat [ZWSP] n ++ space_list n rest
      else if Emoji (cp_value c) then
        match rest with
        | v :: rest' =>
            if cp_value v =? 0xFE0F
            then c :: v :: repeat [ZWSP] n ++ space_list n rest'
            else c :: space_list n rest
        | [] => [c]
        end
      else c :: space_list n rest
  end.

(** How many matches the scan finds. *)
Fixpoint emoji_matches (l : list codepoint) : nat :=
  match l with
  | [] => O
  | c :: rest =>
      if Emoji_Presentation (cp_value c) then S (emoji_matches rest)
      else if Emoji (cp_value c) then
        match rest with
        | v :: rest' =>
            if cp_value v =? 0xFE0F then S (emoji_matches rest')
            else emoji_matches rest
        | [] => O
        end
      else emoji_matches rest
  end.

End Pipeline.

(** The first five passes of the pipeline. *)
Definition beforeEmojiSpacing {quotes : QuoteTemplate} (text : jsstring) : jsstring :=
  convertQuotes (convertMonospace (convertStrikethrough
    (convertItalic (convertBold text)))).

(** ** The four styles as one operation *)

Inductive StyleKind := Bold | Italic | Strikethrough | Monospace.

Definition style_regex (k : StyleKind) : span_regex :=
  match k with
  | Bold => boldRegex
  | Italic => italicRegex
  | Strikethrough => strikethroughRegex
  | Monospace => monospaceRegex
  end.

Definition style_glyphs (k : StyleKind) : jsstring -> jsstring :=
  match k with
  | Bold => toBoldUnicode
  | Italic => toItalicUnicode
  | Strikethrough => toStrikethroughUnicode
  | Monospace => toMonospaceUnicode
  end.

Definition rewrite (k : StyleKind) (text : jsstring) : jsstring :=
  match k with
  | Bold => convertBold text
  | Italic => convertItalic text
  | Strikethrough => convertStrikethrough text
  | Monospace => convertMonospace text
  end.

(** The delimiter of a style and the character it is made of. *)
Definition delimiter (k : StyleKind) : list Z := sp_open (style_regex k).
Definition delimiter_char (k : StyleKind) : Z := sp_class (style_regex k).


(** [s.includes(c)] for a single character. *)
Definition occurs (c : Z) (s : jsstring) : bool := existsb (Z.eqb c) s.

(** ** The scan of a style pass, step by step

    [scanned k text out s]: started at the head of [text], the scan of the
    pass of style [k] has written [out] and stands in front of [s].  Where
    the expression matches, the scan writes the glyphs of the interior and
    moves behind the match; elsewhere it copies one character. *)
Inductive scanned (k : StyleKind) (text : jsstring) : jsstring -> jsstring -> Prop :=
| scanned_start : scanned k text [] text
| scanned_span (out s g rest : jsstring) :
    scanned k text out s ->
    exec_span (style_regex k) s = Some (g, rest) ->
    scanned k text (out ++ style_glyphs k g) rest
| scanned_char (out : jsstring) (c : Z) (t : jsstring) :
    scanned k text out (c :: t) ->
    exec_span (style_regex k) (c :: t) = None ->
    scanned k text (out ++ [c]) t.




(** How many matches the scan of a global replacement finds: the loop of
    [replace_loop], counting instead of writing. *)
Fixpoint count_matches_loop {A : Type} (exec : list A -> option (list A * list A))
    (fuel : nat) (s : list A) : nat :=
  match fuel with
  | O => O
  | S n =>
      match s with
      | [] => O
      | a :: t =>
          match exec s with
          | Some (g, rest) => S (count_matches_loop exec n rest)
          | None => count_matches_loop exec n t
          end
      end
  end.

Definition count_matches {A : Type} (exec : list A -> option (list A * list A))
    (s : list A) : nat :=
  count_matches_loop exec (length s) s.

(** The spans the pass of a style rewrites in a text. *)
Definition span_count (k : StyleKind) (text : jsstring) : nat :=
  count_matches (exec_span (style_regex k)) text.

(** A matcher makes progress when no match is empty. *)
Definition progress {A : Type} (exec : list A -> option (list A * list A)) : Prop :=
  forall s g rest, exec s = Some (g, rest) -> (length rest < length s)%nat.

(** ** Code points read back *)

(** A list of code points is well cut when cutting its concatenation gives
    it back: every piece is a surrogate pair or a single unit, and no lead
    surrogate standing alone is followed by a trail surrogate. *)
Definition first_unit (l : list codepoint) : option Z :=
  match l with
  | (u :: _) :: _ => Some u
  | _ => None
  end.

Definition piece_ok (c : codepoint) (next : option Z) : bool :=
  match c with
  | [h; l] => is_lead h && is_trail l
  | [u] => negb (is_lead u && match next with
                              | Some v => is_trail v
                              | None => false
                              end)
  | _ => false
  end.

Fixpoint well_cut (l : list codepoint) : bool :=
  match l with
  | [] => true
  | c :: rest => piece_ok c (first_unit rest) && well_cut rest
  end.

(** ** Telling texts apart *)

Definition without_zwsp (s : jsstring) : jsstring :=
  filter (fun u => negb (u =? ZWSP)) s.

Definition is_letter (u : Z) : bool :=
  ((0x41 <=? u) && (u <=? 0x5A)) || ((0x61 <=? u) && (u <=? 0x7A)).

Definition is_digit (u : Z) : bool := (0x30 <=? u) && (u <=? 0x39).

Definition has_glyph (m : list (Z * list Z)) (u : Z) : bool :=
  match lookup m u with
  | Some _ => true
  | None => false
  end.

(** The characters the four style delimiters are made of. *)
Definition is_delimiter_char (u : Z) : bool :=
  (u =? 0x2A) || (u =? 0x5F) || (u =? 0x7E) || (u =? 0x60).

Definition delimiter_free (s : jsstring) : bool :=
  forallb (fun u => negb (is_delimiter_char u)) s.

Definition is_quote_char (u : Z) : bool := (u =? 0x22) || (u =? 0x27).

Definition quote_free (s : jsstring) : bool :=
  forallb (fun u => negb (is_quote_char u)) s.

(** Scalar values that no version of the Unicode data gives emoji
    presentation: everything below U+231A, the surrogates, and the
    Mathematical Alphanumeric Symbols the glyph tables draw from. *)
Definition text_scalar (c : Z) : bool :=
  (c <? 0x231A) || is_surrogate c || ((0x1D400 <=? c) && (c <=? 0x1D7FF)).

Definition text_presentation {unicode : UnicodeData} : Prop :=
  forall c, text_scalar c = true -> Emoji_Presentation c = false.

(** Every code point of the string is a [text_scalar]. *)
Definition plain_text (s : jsstring) : bool :=
  forallb (fun c => text_scalar (cp_value c)) (codePoints s).

(** ** The Unicode 14.0 emoji data

    The code points with [Emoji_Presentation=Yes] and with [Emoji=Yes] in
    emoji-data.txt of Unicode 14.0, as inclusive ranges.  The theorems below
    hold for any data; this instance is the one the examples run on. *)

Definition in_ranges (rs : list (Z * Z)) (c : Z) : bool :=
  existsb (fun r => (fst r <=? c) && (c <=? snd r)) rs.

Definition Emoji_Presentation_14_ranges : list (Z * Z) :=
  [
   (0x231A, 0x231B); (0x23E9, 0x23EC); (0x23F0, 0x23F0); (0x23F3, 0x23F3);
   (0x25FD, 0x25FE); (0x2614, 0x2615); (0x2648, 0x2653); (0x267F, 0x267F);
   (0x2693, 0x2693); (0x26A1, 0x26A1); (0x26AA, 0x26AB); (0x26BD, 0x26BE);
   (0x26C4, 0x26C5); (0x26CE, 0x26CE); (0x26D4, 0x26D4); (0x26EA, 0x26EA);
   (0x26F2, 0x26F3); (0x26F5, 0x26F5); (0x26FA, 0x26FA); (0x26FD, 0x26FD);
   (0x2705, 0x2705); (0x270A, 0x270B); (0x2728, 0x2728); (0x274C, 0x274C);
   (0x274E, 0x274E); (0x2753, 0x2755); (0x2757, 0x2757); (0x2795, 0x2797);
   (0x27B0, 0x27B0); (0x27BF, 0x27BF); (0x2B1B, 0x2B1C); (0x2B50, 0x2B50);
   (0x2B55, 0x2B55); (0x1F004, 0x1F004); (0x1F0CF, 0x1F0CF); (0x1F18E, 0x1F18E);
   (0x1F191, 0x1F19A); (0x1F1E6, 0x1F1FF); (0x1F201, 0x1F201); (0x1F21A, 0x1F21A);
   (0x1F22F, 0x1F22F); (0x1F232, 0x1F236); (0x1F238, 0x1F23A); (0x1F250, 0x1F251);
   (0x1F300, 0x1F320); (0x1F32D, 0x1F335); (0x1F337, 0x1F37C); (0x1F37E, 0x1F393);
   (0x1F3A0, 0x1F3CA); (0x1F3CF, 0x1F3D3); (0x1F3E0, 0x1F3F0); (0x1F3F4, 0x1F3F4);
   (0x1F3F8, 0x1F43E); (0x1F440, 0x1F440); (0x1F442, 0x1F4FC); (0x1F4FF, 0x1F53D);
   (0x1F54B, 0x1F54E); (0x1F550, 0x1F567); (0x1F57A, 0x1F57A); (0x1F595, 0x1F596);
   (0x1F5A4, 0x1F5A4); (0x1F5FB, 0x1F64F); (0x1F680, 0x1F6C5); (0x1F6CC, 0x1F6CC);
   (0x1F6D0, 0x1F6D2); (0x1F6D5, 0x1F6D7); (0x1F6DD, 0x1F6DF); (0x1F6EB, 0x1F6EC);
   (0x1F6F4, 0x1F6FC); (0x1F7E0, 0x1F7EB); (0x1F7F0, 0x1F7F0); (0x1F90C, 0x1F93A);
   (0x1F93C, 0x1F945); (0x1F947, 0x1F9FF); (0x1FA70, 0x1FA74); (0x1FA78, 0x1FA7C);
   (0x1FA80, 0x1FA86); (0x1FA90, 0x1FAAC); (0x1FAB0, 0x1FABA); (0x1FAC0, 0x1FAC5);
   (0x1FAD0, 0x1FAD9); (0x1FAE0, 0x1FAE7); (0x1FAF0, 0x1FAF6) ].

Definition Emoji_14_ranges : list (Z * Z) :=
  [
   (0x23, 0x23); (0x2A, 0x2A); (0x30, 0x39); (0xA9, 0xA9);
   (0xAE, 0xAE); (0x203C, 0x203C); (0x2049, 0x2049); (0x2122, 0x2122);
   (0x2139, 0x2139); (0x2194, 0x2199); (0x21A9, 0x21AA); (0x231A, 0x231B);
   (0x2328, 0x2328); (0x23CF, 0x23CF); (0x23E9, 0x23F3); (0x23F8, 0x23FA);
   (0x24C2, 0x24C2); (0x25AA, 0x25AB); (0x25B6, 0x25B6); (0x25C0, 0x25C0);
   (0x25FB, 0x25FE); (0x2600, 0x2604); (0x260E, 0x260E); (0x2611, 0x2611);
   (0x2614, 0x2615); (0x2618, 0x2618); (0x261D, 0x261D); (0x2620, 0x2620);
   (0x2622, 0x2623); (0x2626, 0x2626); (0x262A, 0x262A); (0x262E, 0x262F);
   (0x2638, 0x263A); (0x2640, 0x2640); (0x2642, 0x2642); (0x2648, 0x2653);
   (0x265F, 0x2660); (0x2663, 0x2663); (0x2665, 0x2666); (0x2668, 0x2668);
   (0x267B, 0x267B); (0x267E, 0x267F); (0x2692, 0x2697); (0x2699, 0x2699);
   (0x269B, 0x269C); (0x26A0, 0x26A1); (0x26A7, 0x26A7); (0x26AA, 0x26AB);
   (0x26B0, 0x26B1); (0x26BD, 0x26BE); (0x26C4, 0x26C5); (0x26C8, 0x26C8);
   (0x26CE, 0x26CF); (0x26D1, 0x26D1); (0x26D3, 0x26D4); (0x26E9, 0x26EA);
   (0x26F0, 0x26F5); (0x26F7, 0x26FA); (0x26FD, 0x26FD); (0x2702, 0x2702);
   (0x2705, 0x2705); (0x2708, 0x270D); (0x270F, 0x270F); (0x2712, 0x2712);
   (0x2714, 0x2714); (0x2716, 0x2716); (0x271D, 0x271D); (0x2721, 0x2721);
   (0x2728, 0x2728); (0x2733, 0x2734); (0x2744, 0x2744); (0x2747, 0x2747);
   (0x274C, 0x274C); (0x274E, 0x274E); (0x2753, 0x2755); (0x2757, 0x2757);
   (0x2763, 0x2764); (0x2795, 0x2797); (0x27A1, 0x27A1); (0x27B0, 0x27B0);
   (0x27BF, 0x27BF); (0x2934, 0x2935); (0x2B05, 0x2B07); (0x2B1B, 0x2B1C);
   (0x2B50, 0x2B50); (0x2B55, 0x2B55); (0x3030, 0x3030); (0x303D, 0x303D);
   (0x3297, 0x3297); (0x3299, 0x3299); (0x1F004, 0x1F004); (0x1F0CF, 0x1F0CF);
   (0x1F170, 0x1F171); (0x1F17E, 0x1F17F); (0x1F18E, 0x1F18E); (0x1F191, 0x1F19A);
   (0x1F1E6, 0x1F1FF); (0x1F201, 0x1F202); (0x1F21A, 0x1F21A); (0x1F22F, 0x1F22F);
   (0x1F232, 0x1F23A); (0x1F250, 0x1F251); (0x1F300, 0x1F321); (0x1F324, 0x1F393);
   (0x1F396, 0x1F397); (0x1F399, 0x1F39B); (0x1F39E, 0x1F3F0); (0x1F3F3, 0x1F3F5);
   (0x1F3F7, 0x1F4FD); (0x1F4FF, 0x1F53D); (0x1F549, 0x1F54E); (0x1F550, 0x1F567);
   (0x1F56F, 0x1F570); (0x1F573, 0x1F57A); (0x1F587, 0x1F587); (0x1F58A, 0x1F58D);
   (0x1F590, 0x1F590); (0x1F595, 0x1F596); (0x1F5A4, 0x1F5A5); (0x1F5A8, 0x1F5A8);
   (0x1F5B1, 0x1F5B2); (0x1F5BC, 0x1F5BC); (0x1F5C2, 0x1F5C4); (0x1F5D1, 0x1F5D3);
   (0x1F5DC, 0x1F5DE); (0x1F5E1, 0x1F5E1); (0x1F5E3, 0x1F5E3); (0x1F5E8, 0x1F5E8);
   (0x1F5EF, 0x1F5EF); (0x1F5F3, 0x1F5F3); (0x1F5FA, 0x1F64F); (0x1F680, 0x1F6C5);
   (0x1F6CB, 0x1F6D2); (0x1F6D5, 0x1F6D7); (0x1F6DD, 0x1F6E5); (0x1F6E9, 0x1F6E9);
   (0x1F6EB, 0x1F6EC); (0x1F6F0, 0x1F6F0); (0x1F6F3, 0x1F6FC); (0x1F7E0, 0x1F7EB);
   (0x1F7F0, 0x1F7F0); (0x1F90C, 0x1F93A); (0x1F93C, 0x1F945); (0x1F947, 0x1F9FF);
   (0x1FA70, 0x1FA74); (0x1FA78, 0x1FA7C); (0x1FA80, 0x1FA86); (0x1FA90, 0x1FAAC);
   (0x1FAB0, 0x1FABA); (0x1FAC0, 0x1FAC5); (0x1FAD0, 0x1FAD9); (0x1FAE0, 0x1FAE7);
   (0x1FAF0, 0x1FAF6) ].

Definition Unicode14 : UnicodeData := {|
  Emoji_Presentation := in_ranges Emoji_Presentation_14_ranges;
  Emoji := in_ranges Emoji_14_ranges
|}.

(** ** Counting characters *)

(** How often the code unit [x] occurs in [s]. *)
Definition count (x : Z) (s : jsstring) : nat := length (filter (Z.eqb x) s).

(** A code unit is a 16-bit value. *)
Definition is_code_unit (u : Z) : bool := (0 <=? u) && (u <? 0x10000).

Definition code_units (s : jsstring) : bool := forallb is_code_unit s.

(** ** The message handler (the bot's main file and server.js)

    [config/whatsapp] is not part of the sources at hand; its [botSettings]
    are a parameter of the handler. *)

Record BotSettings := {
  ignoreGroups : bool;
  ignoreBroadcasts : bool;
  onlyProcessFormatted : bool;
  replyPrefix : jsstring
}.

(** What the handler reads of a chat and of a message of whatsapp-web.js. *)
Module WA.

Record Chat := { isGroup : bool }.

Record Message := {
  body : jsstring;
  broadcast : bool
}.

End WA.

(** WhiteSpace and LineTerminator of ECMAScript, which [trim] strips. *)
Definition is_white_space (u : Z) : bool :=
  existsb (Z.eqb u)
    [0x09; 0x0A; 0x0B; 0x0C; 0x0D; 0x20; 0xA0; 0x1680; 0x2028; 0x2029;
     0x202F; 0x205F; 0x3000; 0xFEFF]
  || ((0x2000 <=? u) && (u <=? 0x200A)).

Fixpoint trimStart (s : jsstring) : jsstring :=
  match s with
  | [] => []
  | u :: t => if is_white_space u then trimStart t else s
  end.

(** [s.trim()] *)
Definition trim (s : jsstring) : jsstring := rev (trimStart (rev (trimStart s))).

(** [!originalText || originalText.trim() === ''] *)
Definition is_empty_message (originalText : jsstring) : bool :=
  match originalText with
  | [] => true
  | _ => match trim originalText with
         | [] => true
         | _ => false
         end
  end.

(** [/[*_~`]/.test(originalText)] *)
Definition hasFormatting (originalText : jsstring) : bool :=
  existsb is_delimiter_char originalText.

(** The reply prefix that server.js writes out: U+1F4F1, [ iOS Style:] and
    two line feeds. *)
Definition serverReplyPrefix : jsstring :=
  [0xD83D; 0xDCF1; 0x20; 0x69; 0x4F; 0x53; 0x20; 0x53; 0x74; 0x79; 0x6C; 0x65;
   0x3A; 0x0A; 0x0A].

Section Handlers.

Context {unicode : UnicodeData} {quotes : QuoteTemplate}.

(** The ['message'] handler of the main file: the text of the reply it
    sends, if it sends one.  [chat] is [None] when [message.getChat()]
    rejects; the handler catches that and logs it. *)
Definition onMessage (settings : BotSettings) (chat : option WA.Chat)
    (message : WA.Message) : option jsstring :=
  match chat with
  | None => None
  | Some chat =>
      if ignoreGroups settings && WA.isGroup chat then None
      else if ignoreBroadcasts settings && WA.broadcast message then None
      else
        let originalText := WA.body message in
        if is_empty_message originalText then None
        else
          let hasFormatting := hasFormatting originalText in
          if onlyProcessFormatted settings && negb hasFormatting then None
          else
            let iosStyledMessage := convertToIOSStyle originalText in
            if list_eq_dec Z.eq_dec iosStyledMessage originalText then None
            else Some (replyPrefix settings ++ iosStyledMessage)
  end.

(** The ['message'] handler of server.js. *)
Definition onMessageServer (chat : option WA.Chat) (message : WA.Message)
  : option jsstring :=
  match chat with
  | None => None
  | Some _ =>
      let originalText := WA.body message in
      if is_empty_message originalText then None
      else
        let iosStyledMessage := convertToIOSStyle originalText in
        if list_eq_dec Z.eq_dec iosStyledMessage originalText then None
        else Some (serverReplyPrefix ++ iosStyledMessage)
  end.

End Handlers.

(** ** The QR code helper (utils/qrCodeHelper.js) *)

(** The characters [encodeURIComponent] leaves alone: letters, digits and
    [- _ . ! ~ * ' ( )]. *)
Definition is_uri_unreserved (u : Z) : bool :=
  is_letter u || is_digit u
  || existsb (Z.eqb u) [0x2D; 0x5F; 0x2E; 0x21; 0x7E; 0x2A; 0x27; 0x28; 0x29].

Definition hex_digit (n : Z) : Z :=
  if n <? 10 then 0x30 + n else 0x41 + (n - 10).

(** An octet as [%XX], the hexadecimal digits in upper case. *)
Definition percent (octet : Z) : list Z :=
  [0x25; hex_digit (octet / 16); hex_digit (octet mod 16)].

(** The UTF-8 octets of a scalar value. *)
Definition utf8 (c : Z) : list Z :=
  if c <? 0x80 then [c]
  else if c <? 0x800 then [0xC0 + c / 0x40; 0x80 + c mod 0x40]
  else if c <? 0x10000 then
    [0xE0 + c / 0x1000; 0x80 + (c / 0x40) mod 0x40; 0x80 + c mod 0x40]
  else
    [0xF0 + c / 0x40000; 0x80 + (c / 0x1000) mod 0x40;
     0x80 + (c / 0x40) mod 0x40; 0x80 + c mod 0x40].

(** A surrogate that is not part of a pair. *)
Definition unpaired_surrogate (c : codepoint) : bool :=
  match c with
  | [u] => is_surrogate u
  | _ => false
  end.

Definition unreserved (c : codepoint) : bool :=
  match c with
  | [u] => is_uri_unreserved u
  | _ => false
  end.

(** The abstract operation Encode of ECMAScript on the code points of the
    string; [None] stands for the URIError it throws on an unpaired
    surrogate. *)
Fixpoint encode (l : list codepoint) : option jsstring :=
  match l with
  | [] => Some []
  | c :: rest =>
      if unreserved c then
        match encode rest with
        | Some e => Some (c ++ e)
        | None => None
        end
      else if unpaired_surrogate c then None
      else
        match encode rest with
        | Some e => Some (flat_map percent (utf8 (cp_value c)) ++ e)
        | None => None
        end
  end.

Definition encodeURIComponent (s : jsstring) : option jsstring :=
  encode (codePoints s).

(** The characters of an encoded component. *)
Definition url_safe (u : Z) : bool := is_uri_unreserved u || (u =? 0x25).

(** A code point as [codePoints] cuts it out of 16-bit code units. *)
Definition chunk_wf (c : codepoint) : bool :=
  match c with
  | [u] => is_code_unit u
  | [h; l] => is_lead h && is_trail l
  | _ => false
  end.

(** [https://api.qrserver.com/v1/create-qr-code/?size=300x300&data=] *)
Definition qrServiceURL : jsstring :=
  [
   0x68; 0x74; 0x74; 0x70; 0x73; 0x3A; 0x2F; 0x2F; 0x61; 0x70; 0x69; 0x2E;
   0x71; 0x72; 0x73; 0x65; 0x72; 0x76; 0x65; 0x72; 0x2E; 0x63; 0x6F; 0x6D;
   0x2F; 0x76; 0x31; 0x2F; 0x63; 0x72; 0x65; 0x61; 0x74; 0x65; 0x2D; 0x71;
   0x72; 0x2D; 0x63; 0x6F; 0x64; 0x65; 0x2F; 0x3F; 0x73; 0x69; 0x7A; 0x65;
   0x3D; 0x33; 0x30; 0x30; 0x78; 0x33; 0x30; 0x30; 0x26; 0x64; 0x61; 0x74;
   0x61; 0x3D ].

(** [QRCodeHelper.generateImageURL] *)
Definition generateImageURL (qrData : jsstring) : option jsstring :=
  match encodeURIComponent qrData with
  | Some encodedData => Some (qrServiceURL ++ encodedData)
  | None => None
  end.

(** ** Client status (the bot's main file and server.js) *)

(** The events of the WhatsApp client that the two files listen to; a
    ['qr'] event carries the code, and the clock reading the main file
    takes on it. *)
Inductive ClientEvent :=
| EvQr (qr : jsstring) (now : Z)
| EvReady
| EvAuthenticated
| EvAuthFailure
| EvDisconnected.

(** The module variables [isClientReady], [qrCodeData], [qrGeneratedAt]. *)
Record BotState := {
  isClientReady : bool;
  qrCodeData : jsstring;
  qrGeneratedAt : option Z
}.

Definition initialState : BotState :=
  {| isClientReady := false; qrCodeData := []; qrGeneratedAt := None |}.

(** The handlers of the main file. *)
Definition onEvent (st : BotState) (e : ClientEvent) : BotState :=
  match e with
  | EvQr qr now =>
      {| isClientReady := isClientReady st;
         qrCodeData := qr;
         qrGeneratedAt := Some now |}
  | EvReady =>
      {| isClientReady := true;
         qrCodeData := [];
         qrGeneratedAt := qrGeneratedAt st |}
  | EvAuthenticated => st
  | EvAuthFailure => st
  | EvDisconnected =>
      {| isClientReady := false;
         qrCodeData := qrCodeData st;
         qrGeneratedAt := qrGeneratedAt st |}
  end.

(** The handlers of server.js, which has no [qrGeneratedAt] and leaves
    [qrCodeData] alone on ['ready']. *)
Definition onEventServer (st : BotState) (e : ClientEvent) : BotState :=
  match e with
  | EvQr qr _ =>
      {| isClientReady := isClientReady st;
         qrCodeData := qr;
         qrGeneratedAt := qrGeneratedAt st |}
  | EvReady =>
      {| isClientReady := true;
         qrCodeData := qrCodeData st;
         qrGeneratedAt := qrGeneratedAt st |}
  | EvAuthenticated => st
  | EvAuthFailure => st
  | EvDisconnected =>
      {| isClientReady := false;
         qrCodeData := qrCodeData st;
         qrGeneratedAt := qrGeneratedAt st |}
  end.

(** The state after a sequence of events, from the start of the process. *)
Definition run (events : list ClientEvent) : BotState :=
  fold_left onEvent events initialState.

Definition runServer (events : list ClientEvent) : BotState :=
  fold_left onEventServer events initialState.

(** A string is truthy when it is not empty. *)
Definition truthy (s : jsstring) : bool :=
  match s with
  | [] => false
  | _ => true
  end.

(** [GET /status] of the main file, without its timestamp: [connected] and
    [qrAvailable]. *)
Definition status (st : BotState) : bool * bool :=
  (isClientReady st, truthy (qrCodeData st)).

(** [GET /status] of server.js: [connected] and [qrCode], [None] for
    [null]. *)
Definition statusServer (st : BotState) : bool * option jsstring :=
  (isClientReady st,
   if negb (isClientReady st) then Some (qrCodeData st) else None).

(** What [GET /qr] answers: the page without a code (telling whether the
    client is connected), the page with the image URL, or the URIError that
    [generateImageURL] throws. *)
Inductive QrPage :=
| NoCode (connected : bool)
| ScanPage (qrImageUrl : jsstring)
| Thrown.

Definition qrRoute (st : BotState) : QrPage :=
  if negb (truthy (qrCodeData st)) then NoCode (isClientReady st)
  else match generateImageURL (qrCodeData st) with
       | Some qrImageUrl => ScanPage qrImageUrl
       | None => Thrown
       end.

(** The last code of the ['qr'] events of a sequence, the empty string when
    there is none. *)
Fixpoint lastQr (events : list ClientEvent) (seen : jsstring) : jsstring :=
  match events with
  | [] => seen
  | EvQr qr _ :: rest => lastQr rest qr
  | _ :: rest => lastQr rest seen
  end.

Definition is_qr (e : ClientEvent) : bool :=
  match e with
  | EvQr _ _ => true
  | _ => false
  end.

(** ** The alphabets behind the glyph tables *)

(** The scalar value a letter or digit has in an alphabet whose capital
    letters start at [upper], whose small letters start at [lower] and whose
    digits start at [digits]; other characters stand for themselves. *)
Definition styled_scalar (upper lower : Z) (digits : option Z) (u : Z) : Z :=
  if (0x41 <=? u) && (u <=? 0x5A) then upper + (u - 0x41)
  else if (0x61 <=? u) && (u <=? 0x7A) then lower + (u - 0x61)
  else if is_digit u then
    match digits with
    | Some zero => zero + (u - 0x30)
    | None => u
    end
  else u.

(** Mathematical Sans-Serif Bold, Sans-Serif Italic (which has no digits)
    and Monospace. *)
Definition bold_scalar : Z -> Z := styled_scalar 0x1D5D4 0x1D5EE (Some 0x1D7EC).
Definition italic_scalar : Z -> Z := styled_scalar 0x1D608 0x1D622 None.
Definition monospace_scalar : Z -> Z := styled_scalar 0x1D670 0x1D68A (Some 0x1D7F6).

(** The scalar values of a string. *)
Definition scalars (s : jsstring) : list Z := map cp_value (codePoints s).

(** U+200D ZERO WIDTH JOINER *)
Definition ZWJ : Z := 0x200D.

(** Events that leave [isClientReady] alone. *)
Definition keeps_connection (e : ClientEvent) : bool :=
  match e with
  | EvReady => false
  | EvDisconnected => false
  | _ => true
  end.

(** * Properties of the matcher *)

Section Matcher.

Lemma match_literal_app (p s : list Z) : match_literal p (p ++ s) = Some s.
Proof.
  induction p as [|c p IH]; simpl; [reflexivity|].
  now rewrite Z.eqb_refl.
Qed.

Lemma match_literal_inv (p s r : list Z) :
  match_literal p s = Some r -> s = p ++ r.
Proof.
  revert s; induction p as [|c p IH]; intros s H; simpl in *.
  - now inversion H.
  - destruct s as [|d s]; [discriminate|].
    destruct (Z.eqb_spec d c); [subst|discriminate].
    now rewrite (IH _ H).
Qed.

(** Whatever the quantifier hands over consists of characters of the
    class, and the closing literal stands right behind it. *)
Lemma greedy_inv (x : Z) (close : list Z) :
  forall s acc g rest,
    greedy x close acc s = Some (g, rest) ->
    exists body, g = acc ++ body /\ ~ In x body /\ s = body ++ close ++ rest.
Proof.
  assert (Hstop : forall s acc g rest,
    match match_literal close s with
    | Some rest => Some (acc, rest) | None => None end = Some (g, rest) ->
    exists body, g = acc ++ body /\ ~ In x body /\ s = body ++ close ++ rest).
  { intros s acc g rest H.
    destruct (match_literal close s) as [r|] eqn:E; [|discriminate].
    inversion H; subst. exists []. rewrite app_nil_r.
    split; [reflexivity|]. split; [intros []|].
    exact (match_literal_inv _ _ _ E). }
  induction s as [|c s IH]; intros acc g rest H.
  - now apply Hstop.
  - cbn [greedy] in H. destruct (Z.eqb_spec c x) as [->|Hc].
    + now apply Hstop.
    + destruct (greedy x close (acc ++ [c]) s) as [[g' r']|] eqn:E.
      * inversion H; subst.
        destruct (IH _ _ _ E) as (body & -> & Hb & ->).
        exists (c :: body). rewrite <- app_assoc. repeat split.
        intros [Heq|Hin]; [congruence|contradiction].
      * now apply Hstop.
Qed.

(** Giving characters back never helps when the closing literal starts
    with the excluded character: the quantifier takes the whole run. *)
Lemma greedy_run (x : Z) (cl : list Z) :
  forall body acc rest,
    ~ In x body ->
    greedy x (x :: cl) acc (body ++ (x :: cl) ++ rest) = Some (acc ++ body, rest).
Proof.
  induction body as [|c body IH]; intros acc rest Hb.
  - rewrite app_nil_r. cbn [app greedy].
    rewrite Z.eqb_refl. cbn [match_literal]. rewrite Z.eqb_refl.
    now rewrite match_literal_app.
  - cbn [app greedy]. destruct (Z.eqb_spec c x) as [->|Hc].
    + exfalso; apply Hb; now left.
    + change (body ++ x :: cl ++ rest) with (body ++ (x :: cl) ++ rest).
      rewrite IH by (intros Hin; apply Hb; now right).
      now rewrite <- app_assoc.
Qed.

Variable r : span_regex.

(** A match is the opening literal, a non-empty interior free of the
    excluded character, and the closing literal. *)
Lemma exec_span_inv (s g rest : list Z) :
  exec_span r s = Some (g, rest) ->
  s = sp_open r ++ g ++ sp_close r ++ rest /\ g <> [] /\ ~ In (sp_class r) g.
Proof.
  unfold exec_span. intros H.
  destruct (match_literal (sp_open r) s) as [[|c s']|] eqn:E; try discriminate.
  apply match_literal_inv in E.
  destruct (Z.eqb_spec c (sp_class r)) as [|Hc]; [discriminate|].
  destruct (greedy_inv _ _ _ _ _ _ H) as (body & -> & Hb & ->).
  subst s. repeat split.
  - discriminate.
  - intros [Heq|Hin]; [congruence|contradiction].
Qed.

Lemma exec_span_progress (s g rest : list Z) :
  exec_span r s = Some (g, rest) -> (length rest < length s)%nat.
Proof.
  intros H. destruct (exec_span_inv _ _ _ H) as (-> & Hg & _).
  destruct g; [congruence|].
  rewrite !length_app. simpl. lia.
Qed.

(** The regular expressions of the class all close on the excluded
    character. *)
Hypothesis close_on_class : exists cl, sp_close r = sp_class r :: cl.

Lemma exec_span_match (g rest : list Z) :
  g <> [] -> ~ In (sp_class r) g ->
  exec_span r (sp_open r ++ g ++ sp_close r ++ rest) = Some (g, rest).
Proof.
  intros Hg Hx. destruct close_on_class as [cl Hcl].
  unfold exec_span. rewrite match_literal_app.
  destruct g as [|c g]; [congruence|]. cbn [app].
  destruct (Z.eqb_spec c (sp_class r)) as [->|Hc].
  - exfalso; apply Hx; now left.
  - rewrite Hcl. apply (greedy_run _ _ g [c] rest).
    intros Hin; apply Hx; now right.
Qed.

End Matcher.

(** * Properties of [replace] *)

Section Replace.

Context {A : Type}.
Variable exec : list A -> option (list A * list A).
Variable emit : A -> list Z.
Variable replacer : list A -> list Z.

Lemma replace_loop_enough :
  progress exec ->
  forall fuel s, (length s <= fuel)%nat ->
    replace_loop exec emit replacer fuel s = replace exec emit replacer s.
Proof.
  intros Hp fuel. unfold replace.
  induction fuel as [fuel IH] using lt_wf_ind. intros s Hlen.
  destruct s as [|a t].
  - destruct fuel; reflexivity.
  - destruct fuel as [|n]; [simpl in Hlen; lia|].
    cbn [replace_loop length].
    destruct (exec (a :: t)) as [[g rest]|] eqn:E.
    + pose proof (Hp _ _ _ E) as Hr. simpl in Hr, Hlen.
      rewrite (IH n) by lia. rewrite (IH (length t)) by lia.
      reflexivity.
    + simpl in Hlen. rewrite (IH n) by lia. reflexivity.
Qed.

Hypothesis exec_progress : progress exec.

Lemma replace_nil : replace exec emit replacer [] = [].
Proof. reflexivity. Qed.

(** Where the expression matches, the replacement is emitted and the scan
    resumes right behind the match. *)
Lemma replace_match (s g rest : list A) :
  exec s = Some (g, rest) ->
  replace exec emit replacer s = replacer g ++ replace exec emit replacer rest.
Proof.
  intros E. pose proof (exec_progress _ _ _ E) as Hr.
  destruct s as [|a t]; [simpl in Hr; lia|].
  unfold replace at 1. cbn [replace_loop length]. rewrite E.
  rewrite replace_loop_enough by (auto; simpl in Hr; lia). reflexivity.
Qed.

(** Where it does not, one character is copied. *)
Lemma replace_skip (a : A) (t : list A) :
  exec (a :: t) = None ->
  replace exec emit replacer (a :: t) = emit a ++ replace exec emit replacer t.
Proof.
  intros E. unfold replace at 1. cbn [replace_loop length]. now rewrite E.
Qed.

(** A text in which the expression matches nowhere is copied. *)
Lemma replace_no_match (s : list A) :
  (forall pre t, s = pre ++ t -> exec t = None) ->
  replace exec emit replacer s = flat_map emit s.
Proof.
  induction s as [|a t IH]; intros H; [reflexivity|].
  rewrite replace_skip by (apply (H []); reflexivity).
  cbn [flat_map]. rewrite IH; [reflexivity|].
  intros pre u ->. apply (H (a :: pre)). reflexivity.
Qed.

End Replace.

Lemma rewrite_unfold (k : StyleKind) (text : jsstring) :
  rewrite k text = replace_span (style_regex k) (style_glyphs k) text.
Proof. destruct k; reflexivity. Qed.

Lemma style_close (k : StyleKind) : sp_close (style_regex k) = delimiter k.
Proof. destruct k; reflexivity. Qed.

Lemma style_delimiter_head (k : StyleKind) :
  exists d, delimiter k = delimiter_char k :: d.
Proof. destruct k; eexists; reflexivity. Qed.


Lemma occurs_false (c : Z) (s : jsstring) : occurs c s = false <-> ~ In c s.
Proof.
  unfold occurs. split.
  - intros H Hin. assert (existsb (Z.eqb c) s = true) as E.
    { apply existsb_exists. exists c. split; [assumption | apply Z.eqb_refl]. }
    congruence.
  - intros H. destruct (existsb (Z.eqb c) s) eqn:E; [|reflexivity].
    apply existsb_exists in E. destruct E as (x & Hin & Hx).
    apply Z.eqb_eq in Hx. subst. contradiction.
Qed.


(** * Span rewriting *)

Section SpanRewriting.

Variable r : span_regex.
Variable glyphs : jsstring -> jsstring.

(** Both delimiters start with the excluded character. *)
Hypothesis open_on_class : exists o, sp_open r = sp_class r :: o.
Hypothesis close_on_class : exists cl, sp_close r = sp_class r :: cl.

Lemma exec_span_other (c : Z) (t : list Z) :
  c <> sp_class r -> exec_span r (c :: t) = None.
Proof.
  intros Hc. destruct open_on_class as [o Ho].
  unfold exec_span. rewrite Ho. cbn [match_literal].
  destruct (Z.eqb_spec c (sp_class r)); [contradiction | reflexivity].
Qed.

(** No match starts where the opening delimiter is directly followed by
    the excluded character. *)
Lemma exec_span_empty_interior (t : list Z) :
  exec_span r (sp_open r ++ sp_class r :: t) = None.
Proof.
  unfold exec_span. rewrite match_literal_app. now rewrite Z.eqb_refl.
Qed.

(** Text without the delimiter character in front of the scan is copied. *)
Lemma replace_span_plain (pre s : jsstring) :
  ~ In (sp_class r) pre ->
  replace_span r glyphs (pre ++ s) = pre ++ replace_span r glyphs s.
Proof.
  induction pre as [|c pre IH]; intros H; [reflexivity|].
  cbn [app]. unfold replace_span in *.
  rewrite replace_skip.
  - cbn [app]. rewrite IH; [reflexivity|]. intros Hin; apply H; now right.
  - apply exec_span_other. intros ->. apply H. now left.
Qed.

Lemma replace_span_free (s : jsstring) :
  ~ In (sp_class r) s -> replace_span r glyphs s = s.
Proof.
  intros H. rewrite <- (app_nil_r s) at 1.
  rewrite replace_span_plain by assumption.
  unfold replace_span. rewrite replace_nil. apply app_nil_r.
Qed.

(** The leftmost delimiter pairs with the nearest following one; the span
    is replaced by its transliterated interior and the scan resumes right
    behind the closing delimiter. *)
Lemma replace_span_first (pre g rest : jsstring) :
  ~ In (sp_class r) pre -> g <> [] -> ~ In (sp_class r) g ->
  replace_span r glyphs (pre ++ sp_open r ++ g ++ sp_close r ++ rest)
  = pre ++ glyphs g ++ replace_span r glyphs rest.
Proof.
  intros Hpre Hg Hx. rewrite replace_span_plain by assumption.
  f_equal. unfold replace_span.
  apply replace_match.
  - intros s g' rest'. apply exec_span_progress.
  - now apply exec_span_match.
Qed.


End SpanRewriting.

(** * Code points *)

Lemma list_ind2 {A : Type} (P : list A -> Prop) :
  P [] -> (forall a, P [a]) ->
  (forall a b t, P t -> P (b :: t) -> P (a :: b :: t)) ->
  forall l, P l.
Proof.
  intros H0 H1 H2 l.
  assert (P l /\ forall a, P (a :: l)) as [H _]; [|exact H].
  induction l as [|b t [IHt IHc]]; split; auto.
Qed.

Lemma codePoints_cons2 (h l : Z) (t : jsstring) :
  codePoints (h :: l :: t)
  = if is_lead h && is_trail l then [h; l] :: codePoints t
    else [h] :: codePoints (l :: t).
Proof. reflexivity. Qed.

(** Cutting a string into code points loses nothing. *)
Lemma concat_codePoints (s : jsstring) : concat (codePoints s) = s.
Proof.
  induction s as [|a|h l t IHt IHc] using list_ind2; try reflexivity.
  rewrite codePoints_cons2. destruct (is_lead h && is_trail l).
  - cbn [concat app]. now rewrite IHt.
  - cbn [concat app]. now rewrite IHc.
Qed.

Lemma well_cut_codePoints (s : jsstring) : well_cut (codePoints s) = true.
Proof.
  induction s as [|a|h l t IHt IHc] using list_ind2.
  - reflexivity.
  - simpl. now rewrite andb_false_r.
  - rewrite codePoints_cons2. destruct (is_lead h && is_trail l) eqn:E.
    + cbn [well_cut piece_ok]. now rewrite E, IHt.
    + cbn [well_cut]. rewrite IHc, andb_true_r.
      assert (first_unit (codePoints (l :: t)) = Some l) as ->.
      { destruct t as [|l' t']; [reflexivity|]. rewrite codePoints_cons2.
        destruct (is_lead l && is_trail l'); reflexivity. }
      cbn [piece_ok]. now rewrite E.
Qed.

Lemma codePoints_concat (l : list codepoint) :
  well_cut l = true -> codePoints (concat l) = l.
Proof.
  induction l as [|c rest IH]; [reflexivity|].
  cbn [well_cut concat]. intros H. apply andb_prop in H. destruct H as [Hc Hr].
  specialize (IH Hr).
  destruct c as [|h [|l [|x c]]]; try discriminate; cbn [piece_ok] in Hc.
  - cbn [app]. destruct rest as [|c' rest'].
    + reflexivity.
    + destruct c' as [|v c'].
      * simpl in Hr. discriminate.
      * cbn [concat app] in *. rewrite codePoints_cons2.
        cbn [first_unit] in Hc.
        destruct (is_lead h && is_trail v); [discriminate|]. now rewrite IH.
  - cbn [app]. rewrite codePoints_cons2, Hc. now rewrite IH.
Qed.

Lemma test_false {A : Type} (exec : list A -> option (list A * list A)) (s : list A) :
  test exec s = false -> forall pre t, s = pre ++ t -> exec t = None.
Proof.
  induction s as [|a s IH]; intros H pre t Heq.
  - symmetry in Heq. apply app_eq_nil in Heq. destruct Heq as [_ ->].
    simpl in H. destruct (exec []); [discriminate | reflexivity].
  - cbn [test] in H. destruct (exec (a :: s)) eqn:E; [discriminate|].
    destruct pre as [|b pre]; simpl in Heq.
    + now subst t.
    + inversion Heq; subst. eapply IH; eauto.
Qed.

(** * Emoji spacing *)

Section EmojiSpacing.

Context {unicode : UnicodeData} {quotes : QuoteTemplate}.

Lemma exec_emoji_progress : progress exec_emoji.
Proof.
  intros s g rest H. destruct s as [|c s]; [discriminate|].
  cbn [exec_emoji] in H.
  destruct (Emoji_Presentation (cp_value c)).
  - inversion H; subst. simpl. lia.
  - destruct (Emoji (cp_value c)); [|discriminate].
    destruct s as [|v s]; [discriminate|].
    destruct (cp_value v =? 0xFE0F); [|discriminate].
    inversion H; subst. simpl. lia.
Qed.

Lemma concat_repeat_unit (u : Z) (n : nat) (l : list codepoint) :
  concat (repeat [u] n ++ l) = repeat u n ++ concat l.
Proof. induction n as [|n IH]; simpl; [reflexivity | now rewrite IH]. Qed.

Lemma replace_emoji_space_list (n : nat) (l : list codepoint) :
  replace exec_emoji (fun c => c) (fun g => concat g ++ repeat ZWSP n) l
  = concat (space_list n l).
Proof.
  induction l as [|a|a b t IHt IHc] using list_ind2.
  - reflexivity.
  - cbn [space_list].
    destruct (Emoji_Presentation (cp_value a)) eqn:EP.
    + erewrite replace_match;
        [| exact exec_emoji_progress | cbn [exec_emoji]; rewrite EP; reflexivity].
      rewrite replace_nil. cbn [concat]. rewrite concat_repeat_unit.
      simpl. now rewrite !app_nil_r.
    + rewrite replace_skip
        by (cbn [exec_emoji]; rewrite EP; destruct (Emoji (cp_value a)); reflexivity).
      rewrite replace_nil. destruct (Emoji (cp_value a)); reflexivity.
  - cbn [space_list].
    destruct (Emoji_Presentation (cp_value a)) eqn:EP.
    + erewrite replace_match;
        [| exact exec_emoji_progress | cbn [exec_emoji]; rewrite EP; reflexivity].
      rewrite IHc. cbn [concat]. rewrite concat_repeat_unit.
      now rewrite !app_nil_r, <- !app_assoc.
    + destruct (Emoji (cp_value a)) eqn:EM.
      * destruct (cp_value b =? 0xFE0F) eqn:EV.
        -- erewrite replace_match;
             [| exact exec_emoji_progress
              | cbn [exec_emoji]; rewrite EP, EM, EV; reflexivity].
           rewrite IHt. cbn [concat]. rewrite concat_repeat_unit.
           now rewrite !app_nil_r, <- !app_assoc.
        -- rewrite replace_skip
             by (cbn [exec_emoji]; rewrite EP, EM, EV; reflexivity).
           now rewrite IHc.
      * rewrite replace_skip by (cbn [exec_emoji]; rewrite EP, EM; reflexivity).
        now rewrite IHc.
Qed.

Lemma add_zwsp_space_list (n : nat) (text : jsstring) :
  add_zwsp n text = concat (space_list n (codePoints text)).
Proof. apply replace_emoji_space_list. Qed.

Lemma improveEmojiSpacing_add_zwsp (text : jsstring) :
  improveEmojiSpacing text = add_zwsp 1 text.
Proof. reflexivity. Qed.

(** Without a match the text is returned as it is. *)
Lemma improveEmojiSpacing_no_match (text : jsstring) :
  emojiTest text = false -> improveEmojiSpacing text = text.
Proof.
  intros H. unfold improveEmojiSpacing.
  rewrite replace_no_match by (apply test_false; exact H).
  rewrite flat_map_concat_map, map_id. apply concat_codePoints.
Qed.

End EmojiSpacing.

Section SecondSpacing.

Context {unicode : UnicodeData} {quotes : QuoteTemplate}.

Lemma space_list_unfold (n : nat) (c : codepoint) (rest : list codepoint) :
  space_list n (c :: rest)
  = if Emoji_Presentation (cp_value c) then
      c :: repeat [ZWSP] n ++ space_list n rest
    else if Emoji (cp_value c) then
      match rest with
      | v :: rest' =>
          if cp_value v =? 0xFE0F
          then c :: v :: repeat [ZWSP] n ++ space_list n rest'
          else c :: space_list n rest
      | [] => [c]
      end
    else c :: space_list n rest.
Proof. reflexivity. Qed.

Lemma space_list_cons (n : nat) (c : codepoint) (rest : list codepoint) :
  exists tl, space_list n (c :: rest) = c :: tl.
Proof.
  cbn [space_list]. destruct (Emoji_Presentation (cp_value c)); [eauto|].
  destruct (Emoji (cp_value c)); [|eauto].
  destruct rest as [|v rest']; [eauto|].
  destruct (cp_value v =? 0xFE0F); eauto.
Qed.

Lemma first_unit_space_list (n : nat) (l : list codepoint) :
  first_unit (space_list n l) = first_unit l.
Proof.
  destruct l as [|c rest]; [reflexivity|].
  destruct (space_list_cons n c rest) as [tl ->]. reflexivity.
Qed.

Lemma first_unit_repeat (n : nat) (l : list codepoint) :
  first_unit (repeat [ZWSP] n ++ l)
  = match n with O => first_unit l | S _ => Some ZWSP end.
Proof. destruct n; reflexivity. Qed.

Lemma piece_ok_zwsp (c : codepoint) (next : option Z) :
  piece_ok c next = true -> piece_ok c (Some ZWSP) = true.
Proof.
  destruct c as [|h [|l [|x c]]]; simpl; try discriminate; auto.
  intros _. now rewrite andb_false_r.
Qed.

Lemma well_cut_repeat (n : nat) (l : list codepoint) :
  well_cut l = true -> well_cut (repeat [ZWSP] n ++ l) = true.
Proof.
  intros H. induction n as [|n IH]; [exact H|].
  cbn [repeat app well_cut]. rewrite IH. reflexivity.
Qed.

Lemma piece_ok_before_repeat (c : codepoint) (n : nat) (l : list codepoint) :
  piece_ok c (first_unit l) = true ->
  piece_ok c (first_unit (repeat [ZWSP] n ++ l)) = true.
Proof.
  intros H. rewrite first_unit_repeat. destruct n; [exact H|].
  exact (piece_ok_zwsp _ _ H).
Qed.

(** Inserting zero-width spaces keeps a list of code points well cut: the
    output of the spacer reads back as the same code points. *)
Lemma well_cut_space_list (n : nat) (l : list codepoint) :
  well_cut l = true -> well_cut (space_list n l) = true.
Proof.
  induction l as [|a|a b t IHt IHc] using list_ind2; intros H.
  - reflexivity.
  - cbn [space_list]. cbn [well_cut] in H. apply andb_prop in H.
    destruct H as [Ha _].
    destruct (Emoji_Presentation (cp_value a));
      [|destruct (Emoji (cp_value a)); cbn [well_cut]; now rewrite Ha].
    cbn [well_cut]. rewrite well_cut_repeat by reflexivity.
    now rewrite piece_ok_before_repeat.
  - cbn [well_cut] in H. apply andb_prop in H. destruct H as [Ha Hbt].
    pose proof Hbt as Hbt'. cbn [well_cut] in Hbt'.
    apply andb_prop in Hbt'. destruct Hbt' as [Hb Ht].
    specialize (IHt Ht). specialize (IHc Hbt).
    assert (Hskip : well_cut (a :: space_list n (b :: t)) = true).
    { cbn [well_cut]. now rewrite first_unit_space_list, Ha, IHc. }
    rewrite space_list_unfold.
    destruct (Emoji_Presentation (cp_value a)).
    + cbn [well_cut]. rewrite well_cut_repeat by exact IHc.
      rewrite piece_ok_before_repeat; [reflexivity|].
      now rewrite first_unit_space_list.
    + destruct (Emoji (cp_value a)); [|exact Hskip].
      destruct (cp_value b =? 0xFE0F); [|exact Hskip].
      cbn [well_cut]. rewrite well_cut_repeat by exact IHt.
      rewrite piece_ok_before_repeat by (now rewrite first_unit_space_list).
      cbn [first_unit] in *. now rewrite Ha.
Qed.

Lemma codePoints_add_zwsp (n : nat) (text : jsstring) :
  codePoints (add_zwsp n text) = space_list n (codePoints text).
Proof.
  rewrite add_zwsp_space_list. apply codePoints_concat.
  apply well_cut_space_list, well_cut_codePoints.
Qed.

(** A zero-width space is no emoji in any version of the Unicode data;
    the spacer relies on it. *)
Hypothesis zwsp_not_presentation : Emoji_Presentation ZWSP = false.
Hypothesis zwsp_not_emoji : Emoji ZWSP = false.

Lemma space_list_repeat (m n : nat) (l : list codepoint) :
  space_list m (repeat [ZWSP] n ++ l) = repeat [ZWSP] n ++ space_list m l.
Proof.
  induction n as [|n IH]; [reflexivity|].
  cbn [repeat app space_list cp_value].
  now rewrite zwsp_not_presentation, zwsp_not_emoji, IH.
Qed.

(** A second run of the scan finds the same matches and puts one more
    zero-width space behind each of them. *)
Lemma space_list_again (n : nat) (l : list codepoint) :
  space_list 1 (space_list n l) = space_list (S n) l.
Proof.
  induction l as [|a|a b t IHt IHc] using list_ind2.
  - reflexivity.
  - cbn [space_list]. destruct (Emoji_Presentation (cp_value a)) eqn:EP.
    + cbn [space_list]. rewrite EP, space_list_repeat. reflexivity.
    + destruct (Emoji (cp_value a)) eqn:EM;
        cbn [space_list]; rewrite EP, EM; reflexivity.
  - destruct (space_list_cons n b t) as [tl Htl].
    rewrite (space_list_unfold n a), (space_list_unfold (S n) a).
    destruct (Emoji_Presentation (cp_value a)) eqn:EP.
    + rewrite space_list_unfold, EP, space_list_repeat, IHc. reflexivity.
    + destruct (Emoji (cp_value a)) eqn:EM.
      * destruct (cp_value b =? 0xFE0F) eqn:EV.
        -- rewrite space_list_unfold, EP, EM, EV, space_list_repeat, IHt.
           reflexivity.
        -- rewrite <- IHc, Htl, space_list_unfold. now rewrite EP, EM, EV.
      * rewrite <- IHc, Htl, space_list_unfold. now rewrite EP, EM.
Qed.

Lemma improveEmojiSpacing_again (n : nat) (text : jsstring) :
  improveEmojiSpacing (add_zwsp n text) = add_zwsp (S n) text.
Proof.
  rewrite improveEmojiSpacing_add_zwsp.
  rewrite (add_zwsp_space_list 1), codePoints_add_zwsp, space_list_again.
  symmetry. apply add_zwsp_space_list.
Qed.

End SecondSpacing.

(** * Counting and filtering through the spacer *)

Section EmojiCounting.

Context {unicode : UnicodeData} {quotes : QuoteTemplate}.

Lemma length_concat_repeat (n : nat) (l : list codepoint) :
  length (concat (repeat [ZWSP] n ++ l)) = (n + length (concat l))%nat.
Proof. rewrite concat_repeat_unit, length_app, repeat_length. reflexivity. Qed.

Lemma emoji_matches_unfold (c : codepoint) (rest : list codepoint) :
  emoji_matches (c :: rest)
  = if Emoji_Presentation (cp_value c) then S (emoji_matches rest)
    else if Emoji (cp_value c) then
      match rest with
      | v :: rest' =>
          if cp_value v =? 0xFE0F then S (emoji_matches rest')
          else emoji_matches rest
      | [] => O
      end
    else emoji_matches rest.
Proof. reflexivity. Qed.

Lemma length_space_list (n : nat) (l : list codepoint) :
  length (concat (space_list n l))
  = (length (concat l) + n * emoji_matches l)%nat.
Proof.
  induction l as [|a|a b t IHt IHc] using list_ind2.
  - simpl. lia.
  - cbn [space_list emoji_matches].
    destruct (Emoji_Presentation (cp_value a));
      [|destruct (Emoji (cp_value a)); simpl; lia].
    cbn [concat]. rewrite !length_app, length_concat_repeat.
    cbn [concat length]. lia.
  - rewrite space_list_unfold, emoji_matches_unfold.
    assert (Hcons : forall (c : codepoint) (l' : list codepoint),
               length (concat (c :: l'))
                                 = (length c + length (concat l'))%nat)
      by (intros; cbn [concat]; apply length_app).
    destruct (Emoji_Presentation (cp_value a)).
    + rewrite !Hcons, length_concat_repeat, IHc, Hcons. lia.
    + assert (length (concat (a :: space_list n (b :: t)))
              = (length (concat (a :: b :: t)) + n * emoji_matches (b :: t))%nat)
        as Hskip by (rewrite !Hcons, IHc, Hcons; lia).
      destruct (Emoji (cp_value a)); [|exact Hskip].
      destruct (cp_value b =? 0xFE0F); [|exact Hskip].
      rewrite !Hcons, length_concat_repeat, IHt. lia.
Qed.

(** An emoji-presentation scalar in the text means at least one match. *)
Lemma emoji_matches_pos (l : list codepoint) :
  existsb (fun c => Emoji_Presentation (cp_value c)) l = true ->
  (1 <= emoji_matches l)%nat.
Proof.
  induction l as [|a|a b t IHt IHc] using list_ind2; intros H.
  - discriminate.
  - simpl in H. rewrite orb_false_r in H. simpl. rewrite H. lia.
  - cbn [existsb] in H. rewrite emoji_matches_unfold.
    destruct (Emoji_Presentation (cp_value a)); [lia|].
    rewrite orb_false_l in H. specialize (IHc H).
    destruct (Emoji (cp_value a)); [|exact IHc].
    destruct (cp_value b =? 0xFE0F); [lia | exact IHc].
Qed.

Lemma without_zwsp_repeat (n : nat) (l : list codepoint) :
  without_zwsp (concat (repeat [ZWSP] n ++ l)) = without_zwsp (concat l).
Proof.
  unfold without_zwsp. rewrite concat_repeat_unit, filter_app.
  induction n as [|n IH]; [reflexivity|]. exact IH.
Qed.

(** The spacer only inserts zero-width spaces. *)
Lemma without_zwsp_space_list (n : nat) (l : list codepoint) :
  without_zwsp (concat (space_list n l)) = without_zwsp (concat l).
Proof.
  assert (Hcons : forall (c : codepoint) (l' : list codepoint),
             without_zwsp (concat (c :: l'))
             = without_zwsp c ++ without_zwsp (concat l'))
    by (intros; cbn [concat]; apply filter_app).
  induction l as [|a|a b t IHt IHc] using list_ind2.
  - reflexivity.
  - cbn [space_list].
    destruct (Emoji_Presentation (cp_value a));
      [|destruct (Emoji (cp_value a)); reflexivity].
    now rewrite !Hcons, without_zwsp_repeat.
  - rewrite space_list_unfold.
    destruct (Emoji_Presentation (cp_value a)).
    + now rewrite (Hcons a), without_zwsp_repeat, IHc, <- Hcons.
    + assert (without_zwsp (concat (a :: space_list n (b :: t)))
              = without_zwsp (concat (a :: b :: t))) as Hskip
        by (now rewrite (Hcons a), IHc, <- Hcons).
      destruct (Emoji (cp_value a)); [|exact Hskip].
      destruct (cp_value b =? 0xFE0F); [|exact Hskip].
      now rewrite !Hcons, without_zwsp_repeat, IHt.
Qed.

Lemma without_zwsp_improveEmojiSpacing (text : jsstring) :
  without_zwsp (improveEmojiSpacing text) = without_zwsp text.
Proof.
  rewrite improveEmojiSpacing_add_zwsp, add_zwsp_space_list.
  now rewrite without_zwsp_space_list, concat_codePoints.
Qed.


Lemma length_add_zwsp (n : nat) (text : jsstring) :
  length (add_zwsp n text)
  = (length text + n * emoji_matches (codePoints text))%nat.
Proof.
  now rewrite add_zwsp_space_list, length_space_list, concat_codePoints.
Qed.

Hypothesis zwsp_not_presentation : Emoji_Presentation ZWSP = false.

Lemma existsb_presentation_repeat (n : nat) (l : list codepoint) :
  existsb (fun c => Emoji_Presentation (cp_value c)) (repeat [ZWSP] n ++ l)
  = existsb (fun c => Emoji_Presentation (cp_value c)) l.
Proof.
  induction n as [|n IH]; [reflexivity|].
  cbn [repeat app existsb cp_value]. now rewrite zwsp_not_presentation.
Qed.

(** The emoji-presentation scalars of the output are those of the input. *)
Lemma existsb_presentation_space_list (n : nat) (l : list codepoint) :
  existsb (fun c => Emoji_Presentation (cp_value c)) (space_list n l)
  = existsb (fun c => Emoji_Presentation (cp_value c)) l.
Proof.
  induction l as [|a|a b t IHt IHc] using list_ind2.
  - reflexivity.
  - cbn [space_list].
    destruct (Emoji_Presentation (cp_value a)) eqn:EP;
      [|destruct (Emoji (cp_value a)); reflexivity].
    cbn [existsb]. now rewrite EP.
  - rewrite space_list_unfold.
    destruct (Emoji_Presentation (cp_value a)) eqn:EP.
    + cbn [existsb]. now rewrite EP.
    + assert (existsb (fun c => Emoji_Presentation (cp_value c))
                (a :: space_list n (b :: t))
              = existsb (fun c => Emoji_Presentation (cp_value c)) (a :: b :: t))
        as Hskip by (cbn [existsb] in *; now rewrite IHc).
      destruct (Emoji (cp_value a)); [|exact Hskip].
      destruct (cp_value b =? 0xFE0F); [|exact Hskip].
      cbn [existsb]. now rewrite existsb_presentation_repeat, IHt.
Qed.

End EmojiCounting.

(** * Quotes *)

(** A replacement that spells the match out again changes nothing. *)
Lemma replace_span_same (r : span_regex) (s : jsstring) :
  replace_span r (fun g => sp_open r ++ g ++ sp_close r) s = s.
Proof.
  remember (length s) as n eqn:Hn.
  revert s Hn. induction n as [n IH] using lt_wf_ind. intros s ->.
  destruct s as [|a t]; [reflexivity|].
  unfold replace_span in *.
  destruct (exec_span r (a :: t)) as [[g rest]|] eqn:E.
  - rewrite (replace_match _ _ _ (exec_span_progress r) _ _ _ E).
    pose proof (exec_span_progress _ _ _ _ E) as Hlt.
    destruct (exec_span_inv _ _ _ _ E) as (Hs & _).
    rewrite (IH _ Hlt rest eq_refl), Hs at 1. now rewrite <- !app_assoc.
  - rewrite replace_skip by exact E.
    rewrite (IH (length t)); [reflexivity | simpl; lia | reflexivity].
Qed.

(** What a replacement keeps of the text: the characters of the
    delimiters and of the template apart, every character stays where it
    is. *)
Lemma filter_replace_span (r : span_regex) (o c : jsstring) (keep : Z -> bool)
    (s : jsstring) :
  forallb (fun u => negb (keep u)) (sp_open r ++ sp_close r) = true ->
  forallb (fun u => negb (keep u)) (o ++ c) = true ->
  filter keep (replace_span r (fun g => o ++ g ++ c) s) = filter keep s.
Proof.
  intros Hr Ht.
  assert (Hnone : forall l, forallb (fun u => negb (keep u)) l = true ->
                            filter keep l = []).
  { induction l as [|a l IHl]; [reflexivity|]. cbn [forallb filter].
    intros H. apply andb_prop in H. destruct H as [Ha Hl].
    destruct (keep a); [discriminate | auto]. }
  rewrite forallb_app in Hr, Ht.
  apply andb_prop in Hr. destruct Hr as [Hro Hrc].
  apply andb_prop in Ht. destruct Ht as [Hto Htc].
  remember (length s) as n eqn:Hn.
  revert s Hn. induction n as [n IH] using lt_wf_ind. intros s ->.
  destruct s as [|a t]; [reflexivity|].
  unfold replace_span in *.
  destruct (exec_span r (a :: t)) as [[g rest]|] eqn:E.
  - rewrite (replace_match _ _ _ (exec_span_progress r) _ _ _ E).
    pose proof (exec_span_progress _ _ _ _ E) as Hlt.
    destruct (exec_span_inv _ _ _ _ E) as (Hs & _).
    rewrite Hs, !filter_app, (IH _ Hlt rest eq_refl).
    rewrite (Hnone _ Hto), (Hnone _ Htc), (Hnone _ Hro), (Hnone _ Hrc).
    cbn [app]. now rewrite app_nil_r.
  - rewrite replace_skip by exact E.
    cbn [app filter]. rewrite (IH (length t)); [reflexivity | simpl; lia | reflexivity].
Qed.

Section QuoteFacts.

Context {quotes : QuoteTemplate}.

(** The first replacement writes its match back, so that the pass is the
    second replacement alone. *)
Lemma convertQuotes_unfold (text : jsstring) :
  convertQuotes text
  = replace_span singleQuoteRegex
      (fun g => singleQuoteOpen ++ g ++ singleQuoteClose) text.
Proof.
  unfold convertQuotes.
  now rewrite (replace_span_same doubleQuoteRegex).
Qed.

(** Whatever the second template writes: a text without U+0027 leaves the
    pass as it came. *)
Lemma convertQuotes_no_single (text : jsstring) :
  occurs 0x27 text = false -> convertQuotes text = text.
Proof.
  intros H. rewrite convertQuotes_unfold.
  apply replace_span_free.
  - exists []. reflexivity.
  - apply occurs_false. exact H.
Qed.

(** Where the second expression matches nowhere, the pass returns its
    input. *)
Lemma convertQuotes_no_match (text : jsstring) :
  test (exec_span singleQuoteRegex) text = false -> convertQuotes text = text.
Proof.
  intros H. rewrite convertQuotes_unfold. unfold replace_span.
  rewrite replace_no_match.
  - clear H. induction text; simpl; congruence.
  - intros pre t ->. induction pre as [|a pre IH].
    + destruct t; cbn [app test] in H;
        destruct (exec_span singleQuoteRegex _); [discriminate|reflexivity|discriminate|reflexivity].
    + apply IH. cbn [app test] in H.
      destruct (exec_span singleQuoteRegex (a :: pre ++ t)); [discriminate | exact H].
Qed.

(** What a second template without the kept characters leaves of a text. *)
Lemma filter_convertQuotes (keep : Z -> bool) (text : jsstring) :
  keep 0x27 = false ->
  forallb (fun u => negb (keep u)) (singleQuoteOpen ++ singleQuoteClose) = true ->
  filter keep (convertQuotes text) = filter keep text.
Proof.
  intros Hq Ht. rewrite convertQuotes_unfold.
  apply filter_replace_span; [|exact Ht].
  cbn. now rewrite Hq.
Qed.

End QuoteFacts.

(** The two readings of the second template.  With straight quotes the
    pass returns every text; with curly quotes it rewrites a pair of
    U+0027, and only once: the curly quotes are no U+0027. *)
Lemma convertQuotes_straight (text : jsstring) :
  @convertQuotes StraightQuotes text = text.
Proof.
  rewrite convertQuotes_unfold. apply (replace_span_same singleQuoteRegex).
Qed.

Lemma convertQuotes_curly :
  @convertQuotes CurlyQuotes [0x27; 0x61; 0x27] = [0x2018; 0x61; 0x2019]
  /\ @convertQuotes CurlyQuotes [0x22; 0x61; 0x22] = [0x22; 0x61; 0x22].
Proof. split; vm_compute; reflexivity. Qed.

Lemma quote_free_no_single (s : jsstring) :
  quote_free s = true -> occurs 0x27 s = false.
Proof.
  intros H. apply occurs_false. intros Hin.
  unfold quote_free in H. rewrite forallb_forall in H.
  specialize (H _ Hin). discriminate.
Qed.

(** * Glyph tables *)

Lemma forall_below (P : Z -> bool) (n : nat) :
  forallb P (map Z.of_nat (seq 0 n)) = true ->
  forall k, 0 <= k < Z.of_nat n -> P k = true.
Proof.
  intros H k Hk. rewrite forallb_forall in H. apply H.
  apply in_map_iff. exists (Z.to_nat k). split; [lia|]. apply in_seq. lia.
Qed.

Lemma lookup_outside (m : list (Z * list Z)) (lo hi u : Z) :
  forallb (fun kv => (lo <=? fst kv) && (fst kv <=? hi)) m = true ->
  u < lo \/ hi < u -> lookup m u = None.
Proof.
  intros H Hu. induction m as [|[k v] m IH]; [reflexivity|].
  cbn [forallb fst] in H. apply andb_prop in H. destruct H as [Hk Hm].
  apply andb_prop in Hk. destruct Hk as [H1 H2].
  apply Z.leb_le in H1, H2. cbn [lookup].
  destruct (Z.eqb_spec u k); [lia | auto].
Qed.

(** Which characters a table translates, settled by running the table on
    the 128 ASCII characters; no key lies outside them. *)
Lemma has_glyph_spec (m : list (Z * list Z)) (P : Z -> bool) :
  forallb (fun kv => (0 <=? fst kv) && (fst kv <=? 127)) m = true ->
  forallb (fun k => Bool.eqb (has_glyph m k) (P k)) (map Z.of_nat (seq 0 128)) = true ->
  (forall u, u < 0 \/ 127 < u -> P u = false) ->
  forall u, has_glyph m u = P u.
Proof.
  intros Hkeys Hascii Hout u.
  destruct (Z_lt_ge_dec u 0) as [Hlo|Hlo]; [|destruct (Z_lt_ge_dec u 128) as [Hhi|Hhi]].
  - unfold has_glyph. rewrite (lookup_outside m 0 127), Hout; auto.
  - apply Bool.eqb_prop.
    apply (forall_below (fun k => Bool.eqb (has_glyph m k) (P k)) 128 Hascii). lia.
  - unfold has_glyph. rewrite (lookup_outside m 0 127), Hout; auto; lia.
Qed.

Lemma is_letter_ascii (u : Z) : u < 0 \/ 127 < u -> is_letter u = false.
Proof. unfold is_letter. lia. Qed.

Lemma is_digit_ascii (u : Z) : u < 0 \/ 127 < u -> is_digit u = false.
Proof. unfold is_digit. lia. Qed.

Lemma has_glyph_bold (u : Z) : has_glyph boldMap u = is_letter u || is_digit u.
Proof.
  apply (has_glyph_spec boldMap (fun k => is_letter k || is_digit k)); [vm_compute; reflexivity | vm_compute; reflexivity |].
  intros v Hv. now rewrite is_letter_ascii, is_digit_ascii.
Qed.

Lemma has_glyph_monospace (u : Z) :
  has_glyph monospaceMap u = is_letter u || is_digit u.
Proof.
  apply (has_glyph_spec monospaceMap (fun k => is_letter k || is_digit k)); [vm_compute; reflexivity | vm_compute; reflexivity |].
  intros v Hv. now rewrite is_letter_ascii, is_digit_ascii.
Qed.

Lemma has_glyph_italic (u : Z) : has_glyph italicMap u = is_letter u.
Proof.
  apply has_glyph_spec; [vm_compute; reflexivity | vm_compute; reflexivity |].
  apply is_letter_ascii.
Qed.

(** What holds of every value of a table holds of what a lookup finds. *)
Lemma lookup_forallb (P : list Z -> bool) (m : list (Z * list Z)) (u : Z) (g : list Z) :
  forallb (fun kv => P (snd kv)) m = true -> lookup m u = Some g -> P g = true.
Proof.
  induction m as [|[k v] m IH]; intros Hall E; [discriminate|].
  cbn [forallb snd] in Hall. apply andb_prop in Hall. destruct Hall as [Hv Hm].
  cbn [lookup] in E. destruct (u =? k); [|now apply IH].
  inversion E; subst. exact Hv.
Qed.

(** A character without an entry passes through. *)
Lemma translit_other (m : list (Z * list Z)) (u : Z) :
  has_glyph m u = false -> translit m [u] = [u].
Proof.
  unfold has_glyph, translit. cbn [flat_map].
  destruct (lookup m u); [discriminate | reflexivity].
Qed.

(** Text none of whose characters has an entry is returned as it is. *)
Lemma translit_fixed (m : list (Z * list Z)) (s : jsstring) :
  forallb (fun u => negb (has_glyph m u)) s = true -> translit m s = s.
Proof.
  induction s as [|u s IH]; [reflexivity|].
  cbn [forallb]. intros H. apply andb_prop in H. destruct H as [Hu Hs].
  apply negb_true_iff in Hu. unfold has_glyph in Hu.
  unfold translit in *. cbn [flat_map]. rewrite (IH Hs).
  destruct (lookup m u); [discriminate | reflexivity].
Qed.

(** * Text without emoji *)

Section PlainText.

Context {unicode : UnicodeData} {quotes : QuoteTemplate}.
Hypothesis text_is_text : text_presentation.

Lemma test_emoji_text (l : list codepoint) :
  forallb (fun c => text_scalar (cp_value c)) l = true ->
  test exec_emoji l = false.
Proof.
  induction l as [|c rest IH]; intros H; [reflexivity|].
  cbn [forallb] in H. apply andb_prop in H. destruct H as [Hc Hrest].
  cbn [test exec_emoji]. rewrite (text_is_text _ Hc), (IH Hrest).
  destruct (Emoji (cp_value c)); [|reflexivity].
  destruct rest as [|v rest']; [reflexivity|].
  cbn [forallb] in Hrest. apply andb_prop in Hrest. destruct Hrest as [Hv _].
  destruct (Z.eqb_spec (cp_value v) 0xFE0F) as [E|E]; [|reflexivity].
  rewrite E in Hv. discriminate.
Qed.

Lemma emojiTest_plain_text (s : jsstring) :
  plain_text s = true -> emojiTest s = false.
Proof. apply test_emoji_text. Qed.

Lemma improveEmojiSpacing_plain_text (s : jsstring) :
  plain_text s = true -> improveEmojiSpacing s = s.
Proof.
  intros H. apply improveEmojiSpacing_no_match. now apply emojiTest_plain_text.
Qed.

End PlainText.

(** * The Unicode 14.0 data on text *)

Lemma in_ranges_above (rs : list (Z * Z)) (hi c : Z) :
  forallb (fun r => hi <? fst r) rs = true -> c <= hi -> in_ranges rs c = false.
Proof.
  intros H Hc. unfold in_ranges. induction rs as [|r rs IH]; [reflexivity|].
  cbn [forallb] in H. apply andb_prop in H. destruct H as [Hr Hrs].
  cbn [existsb]. rewrite (IH Hrs), orb_false_r.
  apply Z.ltb_lt in Hr. apply andb_false_iff. left. apply Z.leb_gt. lia.
Qed.

Lemma in_ranges_apart (rs : list (Z * Z)) (lo hi c : Z) :
  forallb (fun r => (snd r <? lo) || (hi <? fst r)) rs = true ->
  lo <= c <= hi -> in_ranges rs c = false.
Proof.
  intros H Hc. unfold in_ranges. induction rs as [|r rs IH]; [reflexivity|].
  cbn [forallb] in H. apply andb_prop in H. destruct H as [Hr Hrs].
  cbn [existsb]. rewrite (IH Hrs), orb_false_r.
  apply andb_false_iff. apply orb_prop in Hr. destruct Hr as [Hr|Hr].
  - right. apply Z.ltb_lt in Hr. apply Z.leb_gt. lia.
  - left. apply Z.ltb_lt in Hr. apply Z.leb_gt. lia.
Qed.

Lemma Unicode14_text_presentation : @text_presentation Unicode14.
Proof.
  intros c H. unfold text_scalar, is_surrogate in H. cbn [Emoji_Presentation Unicode14].
  apply orb_prop in H. destruct H as [H|H]; [apply orb_prop in H; destruct H as [H|H]|].
  - apply Z.ltb_lt in H.
    apply (in_ranges_above _ 0x2319); [vm_compute; reflexivity | lia].
  - apply andb_prop in H. destruct H as [H1 H2]. apply Z.leb_le in H1, H2.
    apply (in_ranges_apart _ 0xD800 0xDFFF); [vm_compute; reflexivity | lia].
  - apply andb_prop in H. destruct H as [H1 H2]. apply Z.leb_le in H1, H2.
    apply (in_ranges_apart _ 0x1D400 0x1D7FF); [vm_compute; reflexivity | lia].
Qed.

(** * The style passes on text without their delimiter *)

Lemma style_regex_open (k : StyleKind) :
  exists o, sp_open (style_regex k) = sp_class (style_regex k) :: o.
Proof. destruct k; eexists; reflexivity. Qed.

Lemma style_regex_close (k : StyleKind) :
  exists cl, sp_close (style_regex k) = sp_class (style_regex k) :: cl.
Proof. destruct k; eexists; reflexivity. Qed.

Lemma delimiter_free_occurs (k : StyleKind) (s : jsstring) :
  delimiter_free s = true -> occurs (delimiter_char k) s = false.
Proof.
  intros H. unfold occurs. induction s as [|u s IH]; [reflexivity|].
  cbn [delimiter_free forallb] in H. apply andb_prop in H. destruct H as [Hu Hs].
  cbn [existsb]. rewrite (IH Hs), orb_false_r.
  apply negb_true_iff in Hu. unfold is_delimiter_char in Hu.
  apply orb_false_iff in Hu. destruct Hu as [Hu H4].
  apply orb_false_iff in Hu. destruct Hu as [Hu H3].
  apply orb_false_iff in Hu. destruct Hu as [H1 H2].
  rewrite Z.eqb_sym. destruct k; assumption.
Qed.

Lemma rewrite_free (k : StyleKind) (s : jsstring) :
  occurs (delimiter_char k) s = false -> rewrite k s = s.
Proof.
  intros H. rewrite rewrite_unfold. apply replace_span_free.
  - apply style_regex_open.
  - now apply occurs_false.
Qed.

(** The four style passes on a text without delimiter characters. *)
Lemma styles_free (s : jsstring) :
  delimiter_free s = true ->
  convertMonospace (convertStrikethrough (convertItalic (convertBold s))) = s.
Proof.
  intros H.
  pose proof (rewrite_free Bold s (delimiter_free_occurs Bold s H)) as HB.
  pose proof (rewrite_free Italic s (delimiter_free_occurs Italic s H)) as HI.
  pose proof (rewrite_free Strikethrough s (delimiter_free_occurs Strikethrough s H)) as HS.
  pose proof (rewrite_free Monospace s (delimiter_free_occurs Monospace s H)) as HM.
  cbn [rewrite] in HB, HI, HS, HM.
  now rewrite HB, HI, HS, HM.
Qed.

Lemma beforeEmojiSpacing_free {quotes : QuoteTemplate} (s : jsstring) :
  delimiter_free s = true -> occurs 0x27 s = false ->
  beforeEmojiSpacing s = s.
Proof.
  intros H Hq. unfold beforeEmojiSpacing.
  rewrite (styles_free s H). now apply convertQuotes_no_single.
Qed.


(** One step of the scan of a style pass. *)
Lemma rewrite_scan (k : StyleKind) (text : jsstring) :
  rewrite k text
  = match text with
    | [] => []
    | c :: t =>
        match exec_span (style_regex k) text with
        | Some (g, rest) => style_glyphs k g ++ rewrite k rest
        | None => c :: rewrite k t
        end
    end.
Proof.
  destruct text as [|c t]; [destruct k; reflexivity|].
  destruct (exec_span (style_regex k) (c :: t)) as [[g rest]|] eqn:E.
  - rewrite (rewrite_unfold k (c :: t)), (rewrite_unfold k rest).
    apply replace_match; [|exact E].
    intros s g' rest'. apply exec_span_progress.
  - rewrite (rewrite_unfold k (c :: t)), (rewrite_unfold k t).
    exact (replace_skip (exec_span (style_regex k)) (fun u => [u])
             (style_glyphs k) c t E).
Qed.


Lemma rewrite_first (k : StyleKind) (pre g rest : jsstring) :
  occurs (delimiter_char k) pre = false ->
  g <> [] ->
  occurs (delimiter_char k) g = false ->
  rewrite k (pre ++ delimiter k ++ g ++ delimiter k ++ rest)
  = pre ++ style_glyphs k g ++ rewrite k rest.
Proof.
  intros Hpre Hg Hx. rewrite !rewrite_unfold.
  rewrite <- (style_close k) at 2. apply replace_span_first.
  - apply style_regex_open.
  - apply style_regex_close.
  - now apply occurs_false.
  - exact Hg.
  - now apply occurs_false.
Qed.




(** Every run of the pass is such a scan: it ends behind the text, with
    the output of the pass written. *)
Lemma scanned_finish (k : StyleKind) (text : jsstring) :
  forall s out, scanned k text out s -> scanned k text (out ++ rewrite k s) [].
Proof.
  intros s. remember (length s) as n eqn:Hn. revert s Hn.
  induction n as [n IH] using lt_wf_ind. intros s -> out Hscan.
  rewrite rewrite_scan. destruct s as [|c t].
  - now rewrite app_nil_r.
  - destruct (exec_span (style_regex k) (c :: t)) as [[g rest]|] eqn:E.
    + rewrite app_assoc.
      apply (IH (length rest) (exec_span_progress _ _ _ _ E) rest eq_refl).
      now apply (scanned_span k text out (c :: t) g rest).
    + change (c :: rewrite k t) with ([c] ++ rewrite k t). rewrite app_assoc.
      apply (IH (length t)); [simpl; lia | reflexivity|].
      now apply scanned_char.
Qed.

Lemma scanned_all (k : StyleKind) (text : jsstring) :
  scanned k text (rewrite k text) [].
Proof. exact (scanned_finish k text text [] (scanned_start k text)). Qed.

(** The scan stands in front of a suffix of the text. *)
Lemma scanned_suffix (k : StyleKind) (text out s : jsstring) :
  scanned k text out s -> exists done, text = done ++ s.
Proof.
  induction 1 as [|out s g rest _ [done IH] E|out c t _ [done IH] E].
  - exists []. reflexivity.
  - destruct (exec_span_inv _ _ _ _ E) as (Hs & _).
    exists (done ++ sp_open (style_regex k) ++ g ++ sp_close (style_regex k)).
    rewrite IH, Hs, <- !app_assoc. reflexivity.
  - exists (done ++ [c]). rewrite IH, <- app_assoc. reflexivity.
Qed.

Section PipelineFacts.

Context {unicode : UnicodeData} {quotes : QuoteTemplate}.

Lemma convert_unfold (text : jsstring) :
  convertToIOSStyle text = improveEmojiSpacing (beforeEmojiSpacing text).
Proof. reflexivity. Qed.

(** Running the pipeline on a text whose first five passes give [out],
    when [out] holds nothing an emoji could be. *)
Lemma convert_plain (text out : jsstring) :
  text_presentation ->
  beforeEmojiSpacing text = out -> plain_text out = true ->
  convertToIOSStyle text = out.
Proof.
  intros Ht Hout Hplain. rewrite convert_unfold, Hout.
  now apply improveEmojiSpacing_plain_text.
Qed.

End PipelineFacts.

(** * The pipeline driver *)

Section Driver.

Context {unicode : UnicodeData} {quotes : QuoteTemplate}.

(** C1.  [convertToIOSStyle] is the composition of six passes in this
    order: bold, italic, strikethrough, monospace, quotes, emoji spacing;
    each pass works on the output of the one before it.  The order can be
    seen from outside: on [*_a*_] bold before italic gives a bold [a],
    italic before bold an italic one. *)
Theorem convert_is_six_passes_in_order (text : jsstring) :
  convertToIOSStyle text
  = fold_left (fun styledText pass => pass styledText)
      [rewrite Bold; rewrite Italic; rewrite Strikethrough; rewrite Monospace;
       convertQuotes; improveEmojiSpacing] text
  /\ convertToIOSStyle text
     = improveEmojiSpacing (convertQuotes (convertMonospace
         (convertStrikethrough (convertItalic (convertBold text)))))
  /\ convertItalic (convertBold [0x2A; 0x5F; 0x61; 0x2A; 0x5F]) = [0xD835; 0xDDEE]
  /\ convertBold (convertItalic [0x2A; 0x5F; 0x61; 0x2A; 0x5F]) = [0xD835; 0xDE22].
Proof.
  split; [reflexivity|]. split; [reflexivity|].
  split; vm_compute; reflexivity.
Qed.

End Driver.

(** * Spans *)

Section Spans.

Context {unicode : UnicodeData} {quotes : QuoteTemplate}.

(** C2.  Every style pass scans its text from the left: where its
    expression matches, the span is replaced by its transliterated interior
    and the scan resumes right behind the closing delimiter, so spans do
    not overlap; elsewhere one character is copied.  A span pairs an
    opening delimiter with the nearest closing delimiter behind it: the
    leftmost delimiter of the text, a non-empty interior free of the
    delimiter character and the next delimiter make a span, and every match
    has this shape.  [*a*b*c*] gives a bold [a], a plain [b] and a bold
    [c], not one span with interior [a*b*c]. *)
Theorem spans_are_lazy_and_left_to_right :
  (forall (k : StyleKind) (text : jsstring),
      rewrite k text
      = match text with
        | [] => []
        | c :: t =>
            match exec_span (style_regex k) text with
            | Some (g, rest) => style_glyphs k g ++ rewrite k rest
            | None => c :: rewrite k t
            end
        end)
  /\ (forall (k : StyleKind) (pre g rest : jsstring),
      occurs (delimiter_char k) pre = false ->
      g <> [] ->
      occurs (delimiter_char k) g = false ->
      rewrite k (pre ++ delimiter k ++ g ++ delimiter k ++ rest)
      = pre ++ style_glyphs k g ++ rewrite k rest)
  /\ (forall (k : StyleKind) (text g rest : jsstring),
         exec_span (style_regex k) text = Some (g, rest) ->
         text = delimiter k ++ g ++ delimiter k ++ rest
         /\ g <> [] /\ occurs (delimiter_char k) g = false)
  /\ convertBold [0x2A; 0x61; 0x2A; 0x62; 0x2A; 0x63; 0x2A]
     = toBoldUnicode [0x61] ++ [0x62] ++ toBoldUnicode [0x63]
  /\ (text_presentation ->
      convertToIOSStyle [0x2A; 0x61; 0x2A; 0x62; 0x2A; 0x63; 0x2A]
      = [0xD835; 0xDDEE; 0x62; 0xD835; 0xDDF0]).
Proof.
  split; [exact rewrite_scan|]. split; [|split; [|split]].
  - intros k pre g rest. apply rewrite_first.
  - intros k text g rest E.
    destruct (exec_span_inv _ _ _ _ E) as (Ht & Hg & Hx).
    rewrite style_close in Ht. repeat split; try assumption.
    now apply occurs_false.
  - vm_compute. reflexivity.
  - intros Ht. apply (convert_plain _ _ Ht); vm_compute; reflexivity.
Qed.

(** C3, as the code has it.  An opening delimiter directly followed by
    the closing delimiter is no span: no match starts there, and a text
    made of the two delimiters alone comes back unchanged from its pass
    and from the whole pipeline. *)
Theorem empty_interior_is_no_span :
  (forall (k : StyleKind) (t : jsstring),
      exec_span (style_regex k) (delimiter k ++ delimiter k ++ t) = None)
  /\ (forall k : StyleKind,
         rewrite k (delimiter k ++ delimiter k) = delimiter k ++ delimiter k)
  /\ (text_presentation ->
      forall k : StyleKind,
        convertToIOSStyle (delimiter k ++ delimiter k) = delimiter k ++ delimiter k).
Proof.
  split; [|split].
  - intros k t. destruct (style_delimiter_head k) as [d Hd].
    rewrite Hd at 2. cbn [app]. apply exec_span_empty_interior.
  - intros k. destruct k; vm_compute; reflexivity.
  - intros Ht k. apply (convert_plain _ _ Ht); destruct k; vm_compute; reflexivity.
Qed.

(** C4, as the code has it.  The interior of a monospace span is a
    non-empty run without any backtick: a match is a triple backtick, such
    a run and a triple backtick, and nothing else is.  A lone backtick in
    the interior therefore prevents the span, and [```a`b```] comes back
    unchanged. *)
Theorem monospace_interior_has_no_backtick :
  (forall text g rest : jsstring,
      exec_span monospaceRegex text = Some (g, rest)
      <-> text = [0x60; 0x60; 0x60] ++ g ++ [0x60; 0x60; 0x60] ++ rest
          /\ g <> [] /\ occurs 0x60 g = false)
  /\ convertMonospace [0x60; 0x60; 0x60; 0x61; 0x60; 0x62; 0x60; 0x60; 0x60]
     = [0x60; 0x60; 0x60; 0x61; 0x60; 0x62; 0x60; 0x60; 0x60]
  /\ (text_presentation ->
      convertToIOSStyle [0x60; 0x60; 0x60; 0x61; 0x60; 0x62; 0x60; 0x60; 0x60]
      = [0x60; 0x60; 0x60; 0x61; 0x60; 0x62; 0x60; 0x60; 0x60]).
Proof.
  split; [|split].
  - intros text g rest. split.
    + intros E. destruct (exec_span_inv _ _ _ _ E) as (Ht & Hg & Hx).
      repeat split; try assumption. now apply occurs_false.
    + intros (-> & Hg & Hx).
      apply (exec_span_match monospaceRegex (style_regex_close Monospace));
        [exact Hg | now apply occurs_false].
  - vm_compute. reflexivity.
  - intros Ht. apply (convert_plain _ _ Ht); vm_compute; reflexivity.
Qed.


End Spans.

(** * Strikethrough and the glyph tables *)

Lemma surrogate_not_ascii (u : Z) :
  is_surrogate u = true ->
  is_letter u = false /\ is_digit u = false
  /\ is_delimiter_char u = false /\ is_quote_char u = false.
Proof.
  unfold is_surrogate, is_letter, is_digit, is_delimiter_char, is_quote_char.
  intros H. apply andb_prop in H. destruct H as [H1 H2]. apply Z.leb_le in H1, H2.
  repeat split; lia.
Qed.

Lemma length_toStrikethroughUnicode (text : jsstring) :
  length (toStrikethroughUnicode text) = (2 * length text)%nat.
Proof.
  unfold toStrikethroughUnicode.
  induction text as [|u t IH]; [reflexivity|]. cbn [flat_map app length]. lia.
Qed.

(** C6, at the failing input.  [~Hi~] gives [H], U+0336, [i], U+0336, and
    the pass puts one mark behind every UTF-16 code unit of the interior.
    The interior of [~] U+1F600 [~] is one scalar value spelled with two
    code units: it gets two marks, the first of them between its lead and
    its trail surrogate, and the output holds four code points, none of
    them the emoji. *)
Theorem strikethrough_marks_code_units :
  convertStrikethrough [0x7E; 0x48; 0x69; 0x7E] = [0x48; 0x0336; 0x69; 0x0336]
  /\ (forall text : jsstring,
         length (toStrikethroughUnicode text) = (2 * length text)%nat)
  /\ codePoints [0xD83D; 0xDE00] = [[0xD83D; 0xDE00]]
  /\ cp_value [0xD83D; 0xDE00] = 0x1F600
  /\ convertStrikethrough [0x7E; 0xD83D; 0xDE00; 0x7E]
     = [0xD83D; 0x0336; 0xDE00; 0x0336]
  /\ codePoints (convertStrikethrough [0x7E; 0xD83D; 0xDE00; 0x7E])
     = [[0xD83D]; [0x0336]; [0xDE00]; [0x0336]]
  /\ (forall quotes : QuoteTemplate,
         @convertToIOSStyle Unicode14 quotes [0x7E; 0xD83D; 0xDE00; 0x7E]
         = [0xD83D; 0x0336; 0xDE00; 0x0336]).
Proof.
  split; [vm_compute; reflexivity|].
  split; [apply length_toStrikethroughUnicode|].
  split; [vm_compute; reflexivity|]. split; [vm_compute; reflexivity|].
  split; [vm_compute; reflexivity|]. split; [vm_compute; reflexivity|].
  intros quotes. vm_compute. reflexivity.
Qed.

Section Glyphs.

Context {unicode : UnicodeData} {quotes : QuoteTemplate}.

(** C7.  The italic table translates the letters A-Z and a-z and nothing
    else; the bold and the monospace table translate the digits 0-9 as
    well.  A character without an entry in a table passes through it
    unchanged, so a digit in an italic span stays the ASCII digit:
    [_a1_] gives the italic [a] followed by [1]. *)
Theorem italic_table_has_no_digits :
  (forall u : Z, has_glyph italicMap u = is_letter u)
  /\ (forall u : Z, has_glyph boldMap u = is_letter u || is_digit u)
  /\ (forall u : Z, has_glyph monospaceMap u = is_letter u || is_digit u)
  /\ (forall (m : list (Z * list Z)) (u : Z),
         has_glyph m u = false -> translit m [u] = [u])
  /\ (forall u : Z, is_digit u = true ->
         toItalicUnicode [u] = [u]
         /\ toBoldUnicode [u] <> [u] /\ toMonospaceUnicode [u] <> [u])
  /\ convertItalic [0x5F; 0x61; 0x31; 0x5F] = [0xD835; 0xDE22; 0x31]
  /\ (text_presentation ->
      convertToIOSStyle [0x5F; 0x61; 0x31; 0x5F] = [0xD835; 0xDE22; 0x31]).
Proof.
  split; [exact has_glyph_italic|].
  split; [exact has_glyph_bold|].
  split; [exact has_glyph_monospace|].
  split; [exact translit_other|].
  split; [|split].
  - intros u Hu.
    assert (Hl : is_letter u = false) by (unfold is_digit, is_letter in *; lia).
    split; [|split].
    + apply translit_other. now rewrite has_glyph_italic.
    + pose proof (has_glyph_bold u) as H. rewrite Hu, orb_true_r in H.
      unfold toBoldUnicode, translit, has_glyph in *. cbn [flat_map].
      destruct (lookup boldMap u) as [g|] eqn:E; [|discriminate].
      apply (lookup_forallb (fun v => (length v =? 2)%nat)) in E;
        [|vm_compute; reflexivity].
      apply Nat.eqb_eq in E. intros Heq. rewrite app_nil_r in Heq.
      rewrite Heq in E. discriminate.
    + pose proof (has_glyph_monospace u) as H. rewrite Hu, orb_true_r in H.
      unfold toMonospaceUnicode, translit, has_glyph in *. cbn [flat_map].
      destruct (lookup monospaceMap u) as [g|] eqn:E; [|discriminate].
      apply (lookup_forallb (fun v => (length v =? 2)%nat)) in E;
        [|vm_compute; reflexivity].
      apply Nat.eqb_eq in E. intros Heq. rewrite app_nil_r in Heq.
      rewrite Heq in E. discriminate.
  - vm_compute. reflexivity.
  - intros Ht. apply (convert_plain _ _ Ht); vm_compute; reflexivity.
Qed.

End Glyphs.

(** * Running the pipeline once and twice *)

Section Runs.

Context {unicode : UnicodeData} {quotes : QuoteTemplate}.

(** C8.  On a text without any delimiter character, without a straight
    quote and without a scalar the emoji expression matches, the pipeline
    is the identity. *)
Theorem convert_identity_on_plain_text (text : jsstring) :
  delimiter_free text = true ->
  quote_free text = true ->
  emojiTest text = false ->
  convertToIOSStyle text = text.
Proof.
  intros Hd Hq He.
  rewrite convert_unfold, beforeEmojiSpacing_free
    by (try exact Hd; now apply quote_free_no_single).
  now apply improveEmojiSpacing_no_match.
Qed.


(** C10, as the code has it.  When the four style passes and the quote
    pass leave the output of the pipeline as it is, and the output holds
    an emoji-presentation scalar, a second run differs from it by exactly
    one more zero-width space behind every emoji match: the first run has
    put one there, the second run has two, nothing else differs, and the
    two outputs are different. *)
Theorem second_run_adds_zero_width_spaces (text : jsstring) :
  Emoji_Presentation ZWSP = false ->
  Emoji ZWSP = false ->
  beforeEmojiSpacing (convertToIOSStyle text) = convertToIOSStyle text ->
  existsb (fun c => Emoji_Presentation (cp_value c))
    (codePoints (convertToIOSStyle text)) = true ->
  convertToIOSStyle text = add_zwsp 1 (beforeEmojiSpacing text)
  /\ convertToIOSStyle (convertToIOSStyle text)
     = add_zwsp 2 (beforeEmojiSpacing text)
  /\ (1 <= emoji_matches (codePoints (beforeEmojiSpacing text)))%nat
  /\ length (convertToIOSStyle (convertToIOSStyle text))
     = (length (convertToIOSStyle text)
        + emoji_matches (codePoints (beforeEmojiSpacing text)))%nat
  /\ convertToIOSStyle (convertToIOSStyle text) <> convertToIOSStyle text.
Proof.
  intros Hz1 Hz2 Hd He.
  assert (H1 : convertToIOSStyle text = add_zwsp 1 (beforeEmojiSpacing text))
    by reflexivity.
  assert (H2 : convertToIOSStyle (convertToIOSStyle text)
               = add_zwsp 2 (beforeEmojiSpacing text)).
  { rewrite (convert_unfold (convertToIOSStyle text)), Hd.
    rewrite H1. now apply improveEmojiSpacing_again. }
  assert (H3 : (1 <= emoji_matches (codePoints (beforeEmojiSpacing text)))%nat).
  { apply emoji_matches_pos.
    rewrite H1, codePoints_add_zwsp in He.
    now rewrite existsb_presentation_space_list in He. }
  assert (H4 : length (convertToIOSStyle (convertToIOSStyle text))
     = (length (convertToIOSStyle text)
        + emoji_matches (codePoints (beforeEmojiSpacing text)))%nat).
  { rewrite H2, H1, !length_add_zwsp. lia. }
  repeat split; try assumption.
  intros Heq. rewrite Heq in H4. lia.
Qed.

End Runs.

(** * Runs on the Unicode 14.0 data *)

(** On [~] U+1F600 [~] a second run changes nothing: the strikethrough pass
    has taken the emoji apart, and the spacer finds no emoji in either
    run. *)
Lemma split_emoji_is_not_spaced :
  existsb (fun c => @Emoji_Presentation Unicode14 (cp_value c))
    (codePoints [0x7E; 0xD83D; 0xDE00; 0x7E]) = true
  /\ @convertToIOSStyle Unicode14 CurlyQuotes
       (@convertToIOSStyle Unicode14 CurlyQuotes [0x7E; 0xD83D; 0xDE00; 0x7E])
     = @convertToIOSStyle Unicode14 CurlyQuotes [0x7E; 0xD83D; 0xDE00; 0x7E].
Proof. split; vm_compute; reflexivity. Qed.

(** [**] is not rewritten to the empty string: it stays as it is. *)
Lemma empty_bold_pair_is_kept :
  convertBold [0x2A; 0x2A] = [0x2A; 0x2A]
  /\ convertBold [0x2A; 0x2A] <> []
  /\ @convertToIOSStyle Unicode14 CurlyQuotes [0x2A; 0x2A] <> [].
Proof. repeat split; vm_compute; congruence. Qed.

(** [```a`b```] is not rewritten to the monospace form of [a`b]: it stays
    as it is. *)
Lemma lone_backtick_prevents_monospace :
  convertMonospace [0x60; 0x60; 0x60; 0x61; 0x60; 0x62; 0x60; 0x60; 0x60]
  <> toMonospaceUnicode [0x61; 0x60; 0x62]
  /\ @convertToIOSStyle Unicode14 CurlyQuotes
       [0x60; 0x60; 0x60; 0x61; 0x60; 0x62; 0x60; 0x60; 0x60]
     <> toMonospaceUnicode [0x61; 0x60; 0x62]
  /\ @convertToIOSStyle Unicode14 CurlyQuotes
       [0x60; 0x60; 0x60; 0x61; 0x60; 0x62; 0x60; 0x60; 0x60]
     = [0x60; 0x60; 0x60; 0x61; 0x60; 0x62; 0x60; 0x60; 0x60].
Proof. repeat split; vm_compute; congruence. Qed.

(** On [**a**] U+1F600 the second run differs from the first output by
    more than zero-width spaces: the first output is [*], bold [a], [*],
    the emoji and U+200B, and the second run rewrites the span the first
    one has left. *)
Lemma second_run_can_rewrite_a_span :
  existsb (fun c => @Emoji_Presentation Unicode14 (cp_value c))
    (codePoints [0x2A; 0x2A; 0x61; 0x2A; 0x2A; 0xD83D; 0xDE00]) = true
  /\ @convertToIOSStyle Unicode14 CurlyQuotes [0x2A; 0x2A; 0x61; 0x2A; 0x2A; 0xD83D; 0xDE00]
     = [0x2A; 0xD835; 0xDDEE; 0x2A; 0xD83D; 0xDE00; 0x200B]
  /\ @convertToIOSStyle Unicode14 CurlyQuotes
       (@convertToIOSStyle Unicode14 CurlyQuotes [0x2A; 0x2A; 0x61; 0x2A; 0x2A; 0xD83D; 0xDE00])
     = [0xD835; 0xDDEE; 0xD83D; 0xDE00; 0x200B; 0x200B]
  /\ @convertToIOSStyle Unicode14 CurlyQuotes
       (@convertToIOSStyle Unicode14 CurlyQuotes [0x2A; 0x2A; 0x61; 0x2A; 0x2A; 0xD83D; 0xDE00])
     <> [0x2A; 0xD835; 0xDDEE; 0x2A; 0xD83D; 0xDE00; 0x200B; 0x200B]
  /\ without_zwsp (@convertToIOSStyle Unicode14 CurlyQuotes
       (@convertToIOSStyle Unicode14 CurlyQuotes [0x2A; 0x2A; 0x61; 0x2A; 0x2A; 0xD83D; 0xDE00]))
     <> without_zwsp
          (@convertToIOSStyle Unicode14 CurlyQuotes [0x2A; 0x2A; 0x61; 0x2A; 0x2A; 0xD83D; 0xDE00]).
Proof. repeat split; vm_compute; congruence. Qed.

(** With curly quotes in the second template, the output of [''a'b'] holds
    no delimiter character and still changes on a second run by more than
    zero-width spaces: the first run leaves a pair of U+0027 around the
    curly quotes it has written, and the second run rewrites that pair. *)
Lemma second_run_can_rewrite_a_quote_pair :
  @convertToIOSStyle Unicode14 CurlyQuotes [0x27; 0x27; 0x61; 0x27; 0x62; 0x27]
  = [0x27; 0x2018; 0x61; 0x2019; 0x62; 0x27]
  /\ delimiter_free
       (@convertToIOSStyle Unicode14 CurlyQuotes [0x27; 0x27; 0x61; 0x27; 0x62; 0x27])
     = true
  /\ @convertToIOSStyle Unicode14 CurlyQuotes
       (@convertToIOSStyle Unicode14 CurlyQuotes [0x27; 0x27; 0x61; 0x27; 0x62; 0x27])
     = [0x2018; 0x2018; 0x61; 0x2019; 0x62; 0x2019]
  /\ @convertToIOSStyle Unicode14 StraightQuotes
       (@convertToIOSStyle Unicode14 StraightQuotes [0x27; 0x27; 0x61; 0x27; 0x62; 0x27])
     = [0x27; 0x27; 0x61; 0x27; 0x62; 0x27].
Proof. repeat split; vm_compute; reflexivity. Qed.

(** The span law at [x_ab__c_], and the run on [*a*b*c*]. *)
Lemma spans_are_lazy_and_left_to_right_witness :
  occurs (delimiter_char Italic) [0x78] = false
  /\ [0x61; 0x62] <> []
  /\ occurs (delimiter_char Italic) [0x61; 0x62] = false
  /\ rewrite Italic
       ([0x78] ++ delimiter Italic ++ [0x61; 0x62] ++ delimiter Italic
        ++ [0x5F; 0x63; 0x5F])
     = [0x78] ++ style_glyphs Italic [0x61; 0x62] ++ rewrite Italic [0x5F; 0x63; 0x5F]
  /\ @convertToIOSStyle Unicode14 CurlyQuotes [0x2A; 0x61; 0x2A; 0x62; 0x2A; 0x63; 0x2A]
     = [0xD835; 0xDDEE; 0x62; 0xD835; 0xDDF0].
Proof.
  destruct (@spans_are_lazy_and_left_to_right Unicode14 CurlyQuotes)
    as (_ & Hspan & _ & _ & Hrun).
  split; [vm_compute; reflexivity|]. split; [discriminate|]. split; [vm_compute; reflexivity|]. split.
  - apply Hspan; [vm_compute; reflexivity | discriminate | vm_compute; reflexivity].
  - apply Hrun. exact Unicode14_text_presentation.
Defined.

(** Six backticks go through the pipeline as they are. *)
Lemma empty_interior_is_no_span_witness :
  @text_presentation Unicode14
  /\ @convertToIOSStyle Unicode14 CurlyQuotes (delimiter Monospace ++ delimiter Monospace)
     = delimiter Monospace ++ delimiter Monospace.
Proof.
  destruct (@empty_interior_is_no_span Unicode14 CurlyQuotes) as (_ & _ & Hrun).
  split; [exact Unicode14_text_presentation|].
  apply Hrun. exact Unicode14_text_presentation.
Defined.

(** [```ab```x] matches with interior [ab]. *)
Lemma monospace_interior_has_no_backtick_witness :
  [0x61; 0x62] <> [] /\ occurs 0x60 [0x61; 0x62] = false
  /\ exec_span monospaceRegex
       ([0x60; 0x60; 0x60] ++ [0x61; 0x62] ++ [0x60; 0x60; 0x60] ++ [0x78])
     = Some ([0x61; 0x62], [0x78])
  /\ @convertToIOSStyle Unicode14 CurlyQuotes
       [0x60; 0x60; 0x60; 0x61; 0x60; 0x62; 0x60; 0x60; 0x60]
     = [0x60; 0x60; 0x60; 0x61; 0x60; 0x62; 0x60; 0x60; 0x60].
Proof.
  destruct (@monospace_interior_has_no_backtick Unicode14 CurlyQuotes) as (Hexec & _ & Hrun).
  split; [discriminate|]. split; [vm_compute; reflexivity|]. split.
  - apply Hexec. split; [vm_compute; reflexivity|]. split; [discriminate | vm_compute; reflexivity].
  - apply Hrun. exact Unicode14_text_presentation.
Defined.


(** The digit [5] in the three tables, and the run on [_a1_]. *)
Lemma italic_table_has_no_digits_witness :
  is_digit 0x35 = true
  /\ toItalicUnicode [0x35] = [0x35]
  /\ toBoldUnicode [0x35] <> [0x35]
  /\ toMonospaceUnicode [0x35] <> [0x35]
  /\ @convertToIOSStyle Unicode14 CurlyQuotes [0x5F; 0x61; 0x31; 0x5F] = [0xD835; 0xDE22; 0x31].
Proof.
  destruct (@italic_table_has_no_digits Unicode14 CurlyQuotes)
    as (_ & _ & _ & _ & Hdigit & _ & Hrun).
  split; [vm_compute; reflexivity|].
  destruct (Hdigit 0x35 ltac:(vm_compute; reflexivity)) as (Hi & Hb & Hm).
  split; [exact Hi|]. split; [exact Hb|]. split; [exact Hm|].
  apply Hrun. exact Unicode14_text_presentation.
Defined.

(** [Hi 5!] goes through unchanged. *)
Lemma convert_identity_on_plain_text_witness :
  delimiter_free [0x48; 0x69; 0x20; 0x35; 0x21] = true
  /\ quote_free [0x48; 0x69; 0x20; 0x35; 0x21] = true
  /\ @emojiTest Unicode14 [0x48; 0x69; 0x20; 0x35; 0x21] = false
  /\ @convertToIOSStyle Unicode14 CurlyQuotes [0x48; 0x69; 0x20; 0x35; 0x21]
     = [0x48; 0x69; 0x20; 0x35; 0x21].
Proof.
  split; [vm_compute; reflexivity|]. split; [vm_compute; reflexivity|]. split; [vm_compute; reflexivity|].
  apply (@convert_identity_on_plain_text Unicode14 CurlyQuotes); vm_compute; reflexivity.
Defined.


(** The output of [*Hi* 2*3 ] U+1F600 [ ] U+2764 U+FE0F run again: the [*]
    the first run has left opens no span. *)
Lemma second_run_adds_zero_width_spaces_witness :
  @Emoji_Presentation Unicode14 ZWSP = false
  /\ @Emoji Unicode14 ZWSP = false
  /\ @beforeEmojiSpacing CurlyQuotes (@convertToIOSStyle Unicode14 CurlyQuotes
       [0x2A; 0x48; 0x69; 0x2A; 0x20; 0x32; 0x2A; 0x33; 0x20; 0xD83D; 0xDE00;
        0x20; 0x2764; 0xFE0F])
     = @convertToIOSStyle Unicode14 CurlyQuotes
         [0x2A; 0x48; 0x69; 0x2A; 0x20; 0x32; 0x2A; 0x33; 0x20; 0xD83D; 0xDE00;
          0x20; 0x2764; 0xFE0F]
  /\ existsb (fun c => @Emoji_Presentation Unicode14 (cp_value c))
       (codePoints (@convertToIOSStyle Unicode14 CurlyQuotes
          [0x2A; 0x48; 0x69; 0x2A; 0x20; 0x32; 0x2A; 0x33; 0x20; 0xD83D; 0xDE00;
           0x20; 0x2764; 0xFE0F])) = true
  /\ @convertToIOSStyle Unicode14 CurlyQuotes (@convertToIOSStyle Unicode14 CurlyQuotes
       [0x2A; 0x48; 0x69; 0x2A; 0x20; 0x32; 0x2A; 0x33; 0x20; 0xD83D; 0xDE00;
        0x20; 0x2764; 0xFE0F])
     = @add_zwsp Unicode14 2 (@beforeEmojiSpacing CurlyQuotes
         [0x2A; 0x48; 0x69; 0x2A; 0x20; 0x32; 0x2A; 0x33; 0x20; 0xD83D; 0xDE00;
          0x20; 0x2764; 0xFE0F]).
Proof.
  split; [vm_compute; reflexivity|]. split; [vm_compute; reflexivity|].
  split; [vm_compute; reflexivity|]. split; [vm_compute; reflexivity|].
  destruct (@second_run_adds_zero_width_spaces Unicode14 CurlyQuotes
              [0x2A; 0x48; 0x69; 0x2A; 0x20; 0x32; 0x2A; 0x33; 0x20; 0xD83D; 0xDE00;
               0x20; 0x2764; 0xFE0F])
    as (_ & Htwice & _); [vm_compute; reflexivity ..|].
  exact Htwice.
Defined.

(** * Counting through the passes *)

Lemma count_app (x : Z) (a b : jsstring) :
  count x (a ++ b) = (count x a + count x b)%nat.
Proof. unfold count. now rewrite filter_app, length_app. Qed.

Lemma count_cons (x u : Z) (s : jsstring) :
  count x (u :: s) = ((if (x =? u)%Z then 1 else 0) + count x s)%nat.
Proof. unfold count. cbn [filter]. destruct (x =? u); reflexivity. Qed.

Lemma count_absent (x : Z) (s : jsstring) : ~ In x s -> count x s = 0%nat.
Proof.
  induction s as [|u s IH]; intros H; [reflexivity|].
  rewrite count_cons, IH by (intros Hin; apply H; now right).
  destruct (Z.eqb_spec x u) as [->|]; [|reflexivity].
  exfalso. apply H. now left.
Qed.

Lemma count_surrogates (x : Z) (s : jsstring) :
  is_surrogate x = false -> forallb is_surrogate s = true -> count x s = 0%nat.
Proof.
  intros Hx Hs. apply count_absent. intros Hin.
  rewrite forallb_forall in Hs. rewrite (Hs x Hin) in Hx. discriminate.
Qed.

(** A table whose values are surrogates adds no other character. *)
Lemma count_translit_le (m : list (Z * list Z)) (x : Z) (g : jsstring) :
  forallb (fun kv => forallb is_surrogate (snd kv)) m = true ->
  is_surrogate x = false ->
  (count x (translit m g) <= count x g)%nat.
Proof.
  intros Hm Hx. unfold translit. induction g as [|u g IH]; [apply Nat.le_refl|].
  cbn [flat_map]. rewrite count_app, count_cons.
  destruct (lookup m u) as [v|] eqn:E.
  - rewrite (count_surrogates x v Hx (lookup_forallb _ _ _ _ Hm E)). lia.
  - rewrite count_cons. change (count x []) with 0%nat. lia.
Qed.

(** A character without an entry is neither added nor removed. *)
Lemma count_translit_eq (m : list (Z * list Z)) (x : Z) (g : jsstring) :
  forallb (fun kv => forallb is_surrogate (snd kv)) m = true ->
  is_surrogate x = false -> has_glyph m x = false ->
  count x (translit m g) = count x g.
Proof.
  intros Hm Hx Hg. unfold translit. induction g as [|u g IH]; [reflexivity|].
  cbn [flat_map]. rewrite count_app, count_cons, IH.
  destruct (lookup m u) as [v|] eqn:E.
  - rewrite (count_surrogates x v Hx (lookup_forallb _ _ _ _ Hm E)).
    destruct (Z.eqb_spec x u) as [->|]; [|reflexivity].
    unfold has_glyph in Hg. rewrite E in Hg. discriminate.
  - rewrite count_cons. change (count x []) with 0%nat. lia.
Qed.

Lemma count_toStrikethroughUnicode (x : Z) (g : jsstring) :
  x <> 0x0336 -> count x (toStrikethroughUnicode g) = count x g.
Proof.
  intros Hx. unfold toStrikethroughUnicode.
  induction g as [|u g IH]; [reflexivity|].
  cbn [flat_map app]. rewrite !count_cons, IH.
  destruct (Z.eqb_spec x 0x0336); [contradiction | reflexivity].
Qed.

Lemma tables_are_surrogates :
  forallb (fun kv => forallb is_surrogate (snd kv)) boldMap = true
  /\ forallb (fun kv => forallb is_surrogate (snd kv)) italicMap = true
  /\ forallb (fun kv => forallb is_surrogate (snd kv)) monospaceMap = true.
Proof. repeat split; vm_compute; reflexivity. Qed.

Lemma count_style_glyphs_le (k : StyleKind) (x : Z) (g : jsstring) :
  is_surrogate x = false -> x <> 0x0336 ->
  (count x (style_glyphs k g) <= count x g)%nat.
Proof.
  intros Hs Hx. destruct tables_are_surrogates as (Hb & Hi & Hm).
  destruct k; cbn [style_glyphs].
  - now apply count_translit_le.
  - now apply count_translit_le.
  - rewrite count_toStrikethroughUnicode by assumption. apply Nat.le_refl.
  - now apply count_translit_le.
Qed.

Lemma count_style_glyphs_eq (k : StyleKind) (x : Z) (g : jsstring) :
  is_surrogate x = false -> x <> 0x0336 ->
  is_letter x = false -> is_digit x = false ->
  count x (style_glyphs k g) = count x g.
Proof.
  intros Hs Hx Hl Hd. destruct tables_are_surrogates as (Hb & Hi & Hm).
  destruct k; cbn [style_glyphs].
  - apply count_translit_eq; auto. now rewrite has_glyph_bold, Hl, Hd.
  - apply count_translit_eq; auto. now rewrite has_glyph_italic.
  - now apply count_toStrikethroughUnicode.
  - apply count_translit_eq; auto. now rewrite has_glyph_monospace, Hl, Hd.
Qed.

(** Induction along the scan of a style pass. *)
Lemma rewrite_scan_ind (k : StyleKind) (P : jsstring -> jsstring -> Prop) :
  P [] [] ->
  (forall g rest out,
      g <> [] -> occurs (delimiter_char k) g = false ->
      exec_span (style_regex k) (delimiter k ++ g ++ delimiter k ++ rest)
      = Some (g, rest) ->
      P rest out ->
      P (delimiter k ++ g ++ delimiter k ++ rest) (style_glyphs k g ++ out)) ->
  (forall c t out,
      exec_span (style_regex k) (c :: t) = None -> P t out ->
      P (c :: t) (c :: out)) ->
  forall s, P s (rewrite k s).
Proof.
  intros Hnil Hmatch Hskip s.
  remember (length s) as n eqn:Hn. revert s Hn.
  induction n as [n IH] using lt_wf_ind. intros s ->.
  rewrite rewrite_scan. destruct s as [|c t]; [exact Hnil|].
  destruct (exec_span (style_regex k) (c :: t)) as [[g rest]|] eqn:E.
  - pose proof (exec_span_progress _ _ _ _ E) as Hlt.
    destruct (exec_span_inv _ _ _ _ E) as (Hs & Hg & Hx).
    rewrite style_close in Hs. rewrite Hs in E |- *.
    apply Hmatch; [exact Hg | now apply occurs_false | exact E |].
    now apply (IH (length rest) Hlt).
  - apply Hskip; [exact E|]. apply (IH (length t)); [simpl; lia | reflexivity].
Qed.

Lemma count_delimiter (k : StyleKind) :
  count (delimiter_char k) (delimiter k) = length (delimiter k).
Proof. destruct k; reflexivity. Qed.

Lemma delimiter_char_plain (k : StyleKind) :
  is_surrogate (delimiter_char k) = false /\ delimiter_char k <> 0x0336
  /\ is_letter (delimiter_char k) = false /\ is_digit (delimiter_char k) = false.
Proof. destruct k; repeat split; try reflexivity; discriminate. Qed.

Lemma test_cons_none {A : Type} (exec : list A -> option (list A * list A))
    (a : A) (t : list A) :
  exec (a :: t) = None -> test exec (a :: t) = test exec t.
Proof. intros E. cbn [test]. now rewrite E. Qed.

Lemma test_some {A : Type} (exec : list A -> option (list A * list A))
    (s : list A) (m : list A * list A) :
  exec s = Some m -> test exec s = true.
Proof. intros E. destruct s; cbn [test]; now rewrite E. Qed.

(** The delimiter characters of a style leave its pass in pairs of
    delimiters, one pair for every span. *)
Lemma rewrite_delimiter_pairs (k : StyleKind) (s : jsstring) :
  exists n : nat,
    count (delimiter_char k) s
    = (count (delimiter_char k) (rewrite k s) + n * (2 * length (delimiter k)))%nat
    /\ (n = 0%nat <-> test (exec_span (style_regex k)) s = false).
Proof.
  apply (rewrite_scan_ind k (fun s out => exists n : nat,
    count (delimiter_char k) s
    = (count (delimiter_char k) out + n * (2 * length (delimiter k)))%nat
    /\ (n = 0%nat <-> test (exec_span (style_regex k)) s = false))).
  - exists 0%nat. split; [reflexivity|].
    split; [intros _; destruct k; reflexivity | reflexivity].
  - intros g rest out Hg Hx E (n & Hn & _).
    exists (S n). split.
    + destruct (delimiter_char_plain k) as (Hs & Hm & _).
      pose proof (count_style_glyphs_le k (delimiter_char k) g Hs Hm) as Hle.
      rewrite !count_app, count_delimiter, Hn.
      rewrite (count_absent _ g) in * by now apply occurs_false. lia.
    + rewrite (test_some _ _ _ E). split; discriminate.
  - intros c t out E (n & Hn & Hiff). exists n. split.
    + rewrite !count_cons, Hn. lia.
    + now rewrite (test_cons_none _ _ _ E).
Qed.

(** Characters that are no delimiter of the style, no letter and no digit
    go through its pass, all of them. *)
Lemma count_rewrite_other (k : StyleKind) (x : Z) (s : jsstring) :
  x <> delimiter_char k ->
  is_surrogate x = false -> x <> 0x0336 ->
  is_letter x = false -> is_digit x = false ->
  count x (rewrite k s) = count x s.
Proof.
  intros Hk Hs Hm Hl Hd.
  assert (Hdel : count x (delimiter k) = 0%nat).
  { apply count_absent. unfold delimiter, delimiter_char in *.
    destruct k; cbn in Hk |- *; intuition congruence. }
  apply (rewrite_scan_ind k (fun s out => count x out = count x s)).
  - reflexivity.
  - intros g rest out _ _ _ IH.
    rewrite !count_app, Hdel, IH, count_style_glyphs_eq by assumption. lia.
  - intros c t out _ IH. now rewrite !count_cons, IH.
Qed.

(** No pass adds a character other than glyphs and strikethrough marks. *)
Lemma count_rewrite_le (k : StyleKind) (x : Z) (s : jsstring) :
  is_surrogate x = false -> x <> 0x0336 ->
  (count x (rewrite k s) <= count x s)%nat.
Proof.
  intros Hs Hm.
  apply (rewrite_scan_ind k (fun s out => (count x out <= count x s)%nat)).
  - apply Nat.le_refl.
  - intros g rest out _ _ _ IH.
    pose proof (count_style_glyphs_le k x g Hs Hm).
    rewrite !count_app. lia.
  - intros c t out _ IH. rewrite !count_cons. lia.
Qed.

(** A pass returns its input exactly when its expression matches nowhere. *)
Lemma rewrite_same_iff (k : StyleKind) (s : jsstring) :
  rewrite k s = s <-> test (exec_span (style_regex k)) s = false.
Proof.
  split.
  - intros Heq. destruct (rewrite_delimiter_pairs k s) as (n & Hn & Hiff).
    apply Hiff. rewrite Heq in Hn.
    assert (0 < length (delimiter k))%nat by (destruct k; simpl; lia). nia.
  - intros Ht. rewrite rewrite_unfold. unfold replace_span.
    rewrite replace_no_match by (apply test_false; exact Ht).
    induction s as [|u s IH]; [reflexivity|]. cbn [flat_map app].
    f_equal. apply IH. cbn [test] in Ht.
    destruct (exec_span (style_regex k) (u :: s)); [discriminate | exact Ht].
Qed.

Lemma count_without_zwsp (x : Z) (s : jsstring) :
  x <> ZWSP -> count x (without_zwsp s) = count x s.
Proof.
  intros Hx. unfold without_zwsp. induction s as [|u s IH]; [reflexivity|].
  cbn [filter]. destruct (Z.eqb_spec u ZWSP) as [->|Hu]; cbn [negb].
  - rewrite IH, count_cons. destruct (Z.eqb_spec x ZWSP); [contradiction | reflexivity].
  - now rewrite !count_cons, IH.
Qed.

Lemma occurs_count (x : Z) (s : jsstring) :
  occurs x s = false <-> count x s = 0%nat.
Proof.
  unfold occurs. induction s as [|u s IH]; [split; reflexivity|].
  cbn [existsb]. rewrite count_cons.
  destruct (x =? u); cbn [orb]; [split; [discriminate | lia]|].
  exact IH.
Qed.

(** A style pass puts no U+0027 into a text. *)
Lemma no_single_rewrite (k : StyleKind) (s : jsstring) :
  occurs 0x27 s = false -> occurs 0x27 (rewrite k s) = false.
Proof.
  rewrite !occurs_count. intros H.
  rewrite count_rewrite_other; try reflexivity; try discriminate; try exact H.
  destruct k; discriminate.
Qed.

Section SpacerCounts.

Context {unicode : UnicodeData} {quotes : QuoteTemplate}.

Lemma count_improveEmojiSpacing (x : Z) (s : jsstring) :
  x <> ZWSP -> count x (improveEmojiSpacing s) = count x s.
Proof.
  intros Hx. rewrite <- (count_without_zwsp x (improveEmojiSpacing s)) by exact Hx.
  rewrite without_zwsp_improveEmojiSpacing. now apply count_without_zwsp.
Qed.

Lemma test_emoji_matches (l : list codepoint) :
  test exec_emoji l = true -> (1 <= emoji_matches l)%nat.
Proof.
  induction l as [|a|a b t IHt IHc] using list_ind2; intros H.
  - discriminate.
  - cbn [test exec_emoji emoji_matches] in *.
    destruct (Emoji_Presentation (cp_value a)); [lia|].
    destruct (Emoji (cp_value a)); discriminate.
  - rewrite emoji_matches_unfold. cbn [test exec_emoji] in H.
    destruct (Emoji_Presentation (cp_value a)); [lia|].
    destruct (Emoji (cp_value a)); [|now apply IHc].
    destruct (cp_value b =? 0xFE0F); [lia | now apply IHc].
Qed.

(** The spacer returns its input exactly when the emoji expression matches
    nowhere. *)
Lemma improveEmojiSpacing_same_iff (s : jsstring) :
  improveEmojiSpacing s = s <-> emojiTest s = false.
Proof.
  split; [|apply improveEmojiSpacing_no_match].
  intros Heq. destruct (emojiTest s) eqn:E; [|reflexivity].
  apply test_emoji_matches in E.
  pose proof (length_add_zwsp 1 s) as Hlen.
  rewrite <- improveEmojiSpacing_add_zwsp, Heq in Hlen. lia.
Qed.

(** A text without U+0027 comes back from the pipeline as it is exactly
    when none of the four style expressions and not the emoji expression
    matches in it. *)
Lemma convert_same_iff (text : jsstring) :
  occurs 0x27 text = false ->
  convertToIOSStyle text = text
  <-> (forall k : StyleKind, test (exec_span (style_regex k)) text = false)
      /\ emojiTest text = false.
Proof.
  intros Hq. split.
  - intros Heq.
    assert (Hkeep : forall x s, occurs 0x27 s = false ->
              is_surrogate x = false -> x <> 0x0336 -> x <> ZWSP ->
              (count x (improveEmojiSpacing (convertQuotes s)) <= count x s)%nat).
    { intros x s Hs _ _ Hz.
      rewrite count_improveEmojiSpacing, (convertQuotes_no_single s Hs) by exact Hz.
      apply Nat.le_refl. }
    pose proof (no_single_rewrite Bold _ Hq) as Q1.
    pose proof (no_single_rewrite Italic _ Q1) as Q2.
    pose proof (no_single_rewrite Strikethrough _ Q2) as Q3.
    pose proof (no_single_rewrite Monospace _ Q3) as Q4.
    cbn [rewrite] in Q1, Q2, Q3, Q4.
    assert (Hplain : forall k, is_surrogate (delimiter_char k) = false
              /\ delimiter_char k <> 0x0336 /\ delimiter_char k <> ZWSP).
    { intros k. destruct k; repeat split; try reflexivity; discriminate. }
    assert (Hpos : forall k, (0 < length (delimiter k))%nat)
      by (intros k; destruct k; simpl; lia).
    rewrite convert_unfold in Heq. unfold beforeEmojiSpacing in Heq.
    (* bold *)
    destruct (rewrite_delimiter_pairs Bold text) as (nb & Hnb & Hb).
    destruct (Hplain Bold) as (Hb1 & Hb2 & Hb3).
    pose proof (Hkeep _ (convertMonospace (convertStrikethrough
                  (convertItalic (convertBold text)))) Q4 Hb1 Hb2 Hb3) as H1.
    pose proof (count_rewrite_le Monospace _ (convertStrikethrough
                  (convertItalic (convertBold text))) Hb1 Hb2) as H2.
    pose proof (count_rewrite_le Strikethrough _
                  (convertItalic (convertBold text)) Hb1 Hb2) as H3.
    pose proof (count_rewrite_le Italic _ (convertBold text) Hb1 Hb2) as H4.
    cbn [rewrite] in *. rewrite Heq in H1.
    assert (nb = 0%nat) as -> by (specialize (Hpos Bold); nia).
    assert (Htb : test (exec_span (style_regex Bold)) text = false) by now apply Hb.
    assert (Eb : convertBold text = text) by (apply (rewrite_same_iff Bold); exact Htb).
    rewrite Eb in *. clear H1 H2 H3 H4 Hnb Hb.
    (* italic *)
    destruct (rewrite_delimiter_pairs Italic text) as (ni & Hni & Hi).
    destruct (Hplain Italic) as (Hi1 & Hi2 & Hi3).
    pose proof (Hkeep _ (convertMonospace (convertStrikethrough
                  (convertItalic text))) Q4 Hi1 Hi2 Hi3) as H1.
    pose proof (count_rewrite_le Monospace _ (convertStrikethrough
                  (convertItalic text)) Hi1 Hi2) as H2.
    pose proof (count_rewrite_le Strikethrough _ (convertItalic text) Hi1 Hi2) as H3.
    cbn [rewrite] in *. rewrite Heq in H1.
    assert (ni = 0%nat) as -> by (specialize (Hpos Italic); nia).
    assert (Hti : test (exec_span (style_regex Italic)) text = false) by now apply Hi.
    assert (Ei : convertItalic text = text) by (apply (rewrite_same_iff Italic); exact Hti).
    rewrite Ei in *. clear H1 H2 H3 Hni Hi.
    (* strikethrough *)
    destruct (rewrite_delimiter_pairs Strikethrough text) as (ns & Hns & Hs).
    destruct (Hplain Strikethrough) as (Hs1 & Hs2 & Hs3).
    pose proof (Hkeep _ (convertMonospace (convertStrikethrough text)) Q4 Hs1 Hs2 Hs3) as H1.
    pose proof (count_rewrite_le Monospace _ (convertStrikethrough text) Hs1 Hs2) as H2.
    cbn [rewrite] in *. rewrite Heq in H1.
    assert (ns = 0%nat) as -> by (specialize (Hpos Strikethrough); nia).
    assert (Hts : test (exec_span (style_regex Strikethrough)) text = false) by now apply Hs.
    assert (Es : convertStrikethrough text = text)
      by (apply (rewrite_same_iff Strikethrough); exact Hts).
    rewrite Es in *. clear H1 H2 Hns Hs.
    (* monospace *)
    destruct (rewrite_delimiter_pairs Monospace text) as (nm & Hnm & Hm).
    destruct (Hplain Monospace) as (Hm1 & Hm2 & Hm3).
    pose proof (Hkeep _ (convertMonospace text) Q4 Hm1 Hm2 Hm3) as H1.
    cbn [rewrite] in *. rewrite Heq in H1.
    assert (nm = 0%nat) as -> by (specialize (Hpos Monospace); nia).
    assert (Htm : test (exec_span (style_regex Monospace)) text = false) by now apply Hm.
    assert (Em : convertMonospace text = text)
      by (apply (rewrite_same_iff Monospace); exact Htm).
    rewrite Em, (convertQuotes_no_single _ Hq) in Heq.
    split; [intros k; destruct k; assumption|].
    now apply improveEmojiSpacing_same_iff.
  - intros (Hk & He). rewrite convert_unfold. unfold beforeEmojiSpacing.
    pose proof (proj2 (rewrite_same_iff Bold text) (Hk Bold)) as Eb.
    pose proof (proj2 (rewrite_same_iff Italic text) (Hk Italic)) as Ei.
    pose proof (proj2 (rewrite_same_iff Strikethrough text) (Hk Strikethrough)) as Es.
    pose proof (proj2 (rewrite_same_iff Monospace text) (Hk Monospace)) as Em.
    cbn [rewrite] in *. rewrite Eb, Ei, Es, Em, (convertQuotes_no_single _ Hq).
    now apply improveEmojiSpacing_no_match.
Qed.

End SpacerCounts.

(** * More about the formatter *)

(** X1.  The first replacement of the quote pass writes its match back,
    straight double quotes included: it returns every text as it is, so
    that the pass is its second replacement alone.  A text without U+0027
    leaves the pass as it came, whatever the second template writes. *)
Theorem double_quotes_are_written_back {quotes : QuoteTemplate} (text : jsstring) :
  replace_span doubleQuoteRegex (fun g => [0x22] ++ g ++ [0x22]) text = text
  /\ convertQuotes text
     = replace_span singleQuoteRegex
         (fun g => singleQuoteOpen ++ g ++ singleQuoteClose) text
  /\ (occurs 0x27 text = false -> convertQuotes text = text).
Proof.
  split; [exact (replace_span_same doubleQuoteRegex text)|].
  split; [apply convertQuotes_unfold | apply convertQuotes_no_single].
Qed.

Lemma scalars_single_outside (m : list (Z * list Z)) (u : Z) :
  forallb (fun kv => (0 <=? fst kv) && (fst kv <=? 127)) m = true ->
  u < 0 \/ 127 < u -> scalars (translit m [u]) = [u].
Proof.
  intros Hm Hu. unfold scalars, translit. cbn [flat_map].
  now rewrite (lookup_outside m 0 127 u Hm Hu).
Qed.

Lemma styled_scalar_outside (upper lower : Z) (digits : option Z) (u : Z) :
  u < 0 \/ 127 < u -> styled_scalar upper lower digits u = u.
Proof.
  intros Hu. unfold styled_scalar.
  rewrite (is_digit_ascii u Hu).
  destruct ((0x41 <=? u) && (u <=? 0x5A)) eqn:E1; [lia|].
  destruct ((0x61 <=? u) && (u <=? 0x7A)) eqn:E2; [lia|]. reflexivity.
Qed.

Lemma table_scalars (m : list (Z * list Z)) (f : Z -> Z) :
  forallb (fun kv => (0 <=? fst kv) && (fst kv <=? 127)) m = true ->
  forallb (fun k => match scalars (translit m [k]) with
                    | [c] => c =? f k
                    | _ => false
                    end) (map Z.of_nat (seq 0 128)) = true ->
  (forall u, u < 0 \/ 127 < u -> f u = u) ->
  forall u, scalars (translit m [u]) = [f u].
Proof.
  intros Hkeys Hascii Hout u.
  destruct (Z_lt_ge_dec u 0) as [Hlo|Hlo]; [|destruct (Z_lt_ge_dec u 128) as [Hhi|Hhi]].
  - rewrite scalars_single_outside, Hout; auto.
  - pose proof (forall_below _ 128 Hascii u ltac:(lia)) as H. cbn beta in H.
    destruct (scalars (translit m [u])) as [|c [|c' r]]; try discriminate.
    apply Z.eqb_eq in H. now subst.
  - rewrite scalars_single_outside, Hout; auto; lia.
Qed.

(** X2.  The three tables are the alphabets they are meant to be: a
    capital letter, a small letter or a digit becomes the one scalar value
    at the same position of Mathematical Sans-Serif Bold (U+1D5D4, U+1D5EE,
    U+1D7EC), Sans-Serif Italic (U+1D608, U+1D622, no digits) or Monospace
    (U+1D670, U+1D68A, U+1D7F6); any other code unit stays itself. *)
Theorem glyph_tables_are_the_math_alphabets (u : Z) :
  scalars (toBoldUnicode [u]) = [bold_scalar u]
  /\ scalars (toItalicUnicode [u]) = [italic_scalar u]
  /\ scalars (toMonospaceUnicode [u]) = [monospace_scalar u].
Proof.
  split; [|split].
  - apply (table_scalars boldMap bold_scalar);
      [vm_compute; reflexivity | vm_compute; reflexivity |].
    apply styled_scalar_outside.
  - apply (table_scalars italicMap italic_scalar);
      [vm_compute; reflexivity | vm_compute; reflexivity |].
    apply styled_scalar_outside.
  - apply (table_scalars monospaceMap monospace_scalar);
      [vm_compute; reflexivity | vm_compute; reflexivity |].
    apply styled_scalar_outside.
Qed.

(** What a table writes is a glyph, made of surrogates, or a character it
    has no entry for. *)
Lemma translit_output (m : list (Z * list Z)) (s : jsstring) :
  forallb (fun kv => forallb is_surrogate (snd kv)) m = true ->
  forallb (fun u => is_surrogate u || negb (has_glyph m u)) (translit m s) = true.
Proof.
  intros Hm. unfold translit. induction s as [|u s IH]; [reflexivity|].
  cbn [flat_map]. rewrite forallb_app, IH, andb_true_r.
  destruct (lookup m u) as [v|] eqn:E.
  - pose proof (lookup_forallb _ _ _ _ Hm E) as Hv.
    rewrite forallb_forall in *. intros x Hx. now rewrite (Hv x Hx).
  - cbn [forallb]. unfold has_glyph. now rewrite E, orb_true_r.
Qed.

Lemma translit_after (m m' : list (Z * list Z)) (s : jsstring) :
  forallb (fun kv => forallb is_surrogate (snd kv)) m = true ->
  (forall u, is_surrogate u = true -> has_glyph m' u = false) ->
  (forall u, has_glyph m u = false -> has_glyph m' u = false) ->
  translit m' (translit m s) = translit m s.
Proof.
  intros Hm Hsur Hsub. apply translit_fixed.
  pose proof (translit_output m s Hm) as Hout.
  rewrite forallb_forall in *. intros u Hin. specialize (Hout u Hin).
  apply negb_true_iff. apply orb_prop in Hout. destruct Hout as [H|H].
  - now apply Hsur.
  - apply Hsub. now apply negb_true_iff.
Qed.

Lemma surrogate_has_no_glyph (u : Z) :
  is_surrogate u = true ->
  has_glyph boldMap u = false /\ has_glyph italicMap u = false
  /\ has_glyph monospaceMap u = false.
Proof.
  intros Hu. destruct (surrogate_not_ascii u Hu) as (Hl & Hd & _).
  now rewrite has_glyph_bold, has_glyph_italic, has_glyph_monospace, Hl, Hd.
Qed.

(** X3.  Transliterating twice is transliterating once, for each of the
    three tables; and a text that went through the bold or the monospace
    table goes through the italic table unchanged. *)
Theorem transliteration_is_idempotent (text : jsstring) :
  toBoldUnicode (toBoldUnicode text) = toBoldUnicode text
  /\ toItalicUnicode (toItalicUnicode text) = toItalicUnicode text
  /\ toMonospaceUnicode (toMonospaceUnicode text) = toMonospaceUnicode text
  /\ toItalicUnicode (toBoldUnicode text) = toBoldUnicode text
  /\ toItalicUnicode (toMonospaceUnicode text) = toMonospaceUnicode text.
Proof.
  destruct tables_are_surrogates as (Hb & Hi & Hm).
  assert (Sb : forall u, is_surrogate u = true -> has_glyph boldMap u = false)
    by (intros u Hu; now destruct (surrogate_has_no_glyph u Hu) as (? & ? & ?)).
  assert (Si : forall u, is_surrogate u = true -> has_glyph italicMap u = false)
    by (intros u Hu; now destruct (surrogate_has_no_glyph u Hu) as (? & ? & ?)).
  assert (Sm : forall u, is_surrogate u = true -> has_glyph monospaceMap u = false)
    by (intros u Hu; now destruct (surrogate_has_no_glyph u Hu) as (? & ? & ?)).
  assert (Hbi : forall u, has_glyph boldMap u = false -> has_glyph italicMap u = false).
  { intros u. rewrite has_glyph_bold, has_glyph_italic. intros H.
    now apply orb_false_iff in H. }
  assert (Hmi : forall u, has_glyph monospaceMap u = false -> has_glyph italicMap u = false).
  { intros u. rewrite has_glyph_monospace, has_glyph_italic. intros H.
    now apply orb_false_iff in H. }
  split; [exact (translit_after boldMap boldMap text Hb Sb (fun u H => H))|].
  split; [exact (translit_after italicMap italicMap text Hi Si (fun u H => H))|].
  split; [exact (translit_after monospaceMap monospaceMap text Hm Sm (fun u H => H))|].
  split; [exact (translit_after boldMap italicMap text Hb Si Hbi)|].
  exact (translit_after monospaceMap italicMap text Hm Si Hmi).
Qed.

(** X4.  Taking the marks U+0336 out of a struck-through text gives the
    text back, when the text itself holds no such mark; the struck-through
    text holds one mark for every code unit. *)
Theorem strikethrough_marks_can_be_removed (text : jsstring) :
  occurs 0x0336 text = false ->
  filter (fun u => negb (u =? 0x0336)) (toStrikethroughUnicode text) = text
  /\ count 0x0336 (toStrikethroughUnicode text) = length text.
Proof.
  intros H. unfold toStrikethroughUnicode.
  induction text as [|u t IH]; [split; reflexivity|].
  cbn [occurs existsb] in H. apply orb_false_iff in H. destruct H as [Hu Ht].
  destruct (IH Ht) as (IH1 & IH2).
  cbn [flat_map app filter]. rewrite Z.eqb_sym, Hu. cbn [negb Z.eqb].
  rewrite IH1. split; [reflexivity|].
  rewrite !count_cons, IH2, Hu. reflexivity.
Qed.

Lemma count_matches_replace {A : Type} (exec : list A -> option (list A * list A))
    (fuel : nat) (s : list A) :
  count_matches_loop exec fuel s
  = length (replace_loop exec (fun _ => []) (fun _ => [0]) fuel s).
Proof.
  revert s. induction fuel as [|n IH]; intros s; [reflexivity|].
  destruct s as [|a t]; [reflexivity|].
  cbn [count_matches_loop replace_loop].
  destruct (exec (a :: t)) as [[g rest]|]; cbn [app length]; now rewrite IH.
Qed.

(** The count of spans follows the scan of the pass: one for a match, and
    on behind it; none for a copied character. *)
Lemma span_count_match (k : StyleKind) (s g rest : jsstring) :
  exec_span (style_regex k) s = Some (g, rest) ->
  span_count k s = S (span_count k rest).
Proof.
  intros E. unfold span_count, count_matches.
  rewrite !count_matches_replace.
  change (length (replace (exec_span (style_regex k)) (fun _ => []) (fun _ => [0]) s)
          = S (length (replace (exec_span (style_regex k)) (fun _ => [])
                         (fun _ => [0]) rest))).
  now rewrite (replace_match _ _ _ (exec_span_progress (style_regex k)) _ _ _ E).
Qed.

Lemma span_count_skip (k : StyleKind) (c : Z) (t : jsstring) :
  exec_span (style_regex k) (c :: t) = None ->
  span_count k (c :: t) = span_count k t.
Proof.
  intros E. unfold span_count, count_matches.
  rewrite !count_matches_replace.
  change (length (replace (exec_span (style_regex k)) (fun _ => []) (fun _ => [0])
                    (c :: t))
          = length (replace (exec_span (style_regex k)) (fun _ => [])
                      (fun _ => [0]) t)).
  now rewrite replace_skip by exact E.
Qed.

(** X5.  A style pass takes its delimiter characters away in pairs of
    delimiters, one pair for every span it rewrites (two characters, six
    for monospace), and adds none: the delimiter characters of the input
    are those of the output and, for each match the scan of the pass
    finds, the two delimiters of the match.  The matches are counted along
    the scan, one for a match and on behind it; there is none exactly when
    the expression matches nowhere.  In [*a*b*c*] the bold pass finds two
    spans and takes all four asterisks. *)
Theorem delimiters_leave_in_pairs (k : StyleKind) (text : jsstring) :
  count (delimiter_char k) text
  = (count (delimiter_char k) (rewrite k text)
     + span_count k text * (2 * length (delimiter k)))%nat
  /\ span_count k text
     = match text with
       | [] => 0%nat
       | c :: t =>
           match exec_span (style_regex k) text with
           | Some (g, rest) => S (span_count k rest)
           | None => span_count k t
           end
       end
  /\ (span_count k text = 0%nat <-> test (exec_span (style_regex k)) text = false)
  /\ (count (delimiter_char k) (rewrite k text) <= count (delimiter_char k) text)%nat
  /\ span_count Bold [0x2A; 0x61; 0x2A; 0x62; 0x2A; 0x63; 0x2A] = 2%nat
  /\ count 0x2A (convertBold [0x2A; 0x61; 0x2A; 0x62; 0x2A; 0x63; 0x2A]) = 0%nat.
Proof.
  assert (Hpairs :
    count (delimiter_char k) text
    = (count (delimiter_char k) (rewrite k text)
       + span_count k text * (2 * length (delimiter k)))%nat
    /\ (span_count k text = 0%nat <-> test (exec_span (style_regex k)) text = false)).
  { apply (rewrite_scan_ind k (fun s out =>
      count (delimiter_char k) s
      = (count (delimiter_char k) out
         + span_count k s * (2 * length (delimiter k)))%nat
      /\ (span_count k s = 0%nat <-> test (exec_span (style_regex k)) s = false))).
    - split; [reflexivity|].
      split; [intros _; destruct k; reflexivity | reflexivity].
    - intros g rest out Hg Hx E (Hn & _).
      rewrite (span_count_match _ _ _ _ E). split.
      + destruct (delimiter_char_plain k) as (Hs & Hm & _).
        pose proof (count_style_glyphs_le k (delimiter_char k) g Hs Hm) as Hle.
        rewrite !count_app, count_delimiter, Hn.
        rewrite (count_absent _ g) in * by now apply occurs_false. lia.
      + rewrite (test_some _ _ _ E). split; discriminate.
    - intros c t out E (Hn & Hiff).
      rewrite (span_count_skip _ _ _ E). split.
      + rewrite !count_cons, Hn. lia.
      + now rewrite (test_cons_none _ _ _ E). }
  destruct Hpairs as [Hcount Hzero].
  split; [exact Hcount|]. split.
  { destruct text as [|c t]; [reflexivity|].
    destruct (exec_span (style_regex k) (c :: t)) as [[g rest]|] eqn:E.
    - exact (span_count_match _ _ _ _ E).
    - exact (span_count_skip _ _ _ E). }
  split; [exact Hzero|]. split.
  { destruct (delimiter_char_plain k) as (Hs & Hm & _).
    now apply count_rewrite_le. }
  split; vm_compute; reflexivity.
Qed.

(** X6.  A style pass keeps every character that is not its own delimiter
    character, no letter and no digit: the delimiters of the other styles,
    quotes, blanks and punctuation all come out as often as they went in.
    (Surrogates and U+0336 are what the pass itself writes.) *)
Theorem pass_keeps_other_characters (k : StyleKind) (x : Z) (text : jsstring) :
  x <> delimiter_char k ->
  is_surrogate x = false -> x <> 0x0336 ->
  is_letter x = false -> is_digit x = false ->
  count x (rewrite k text) = count x text.
Proof. apply count_rewrite_other. Qed.

(** X7.  A style pass returns its input exactly when its expression
    matches nowhere in it. *)
Theorem pass_changes_text_iff_it_matches (k : StyleKind) (text : jsstring) :
  rewrite k text = text <-> test (exec_span (style_regex k)) text = false.
Proof. apply rewrite_same_iff. Qed.

Section MoreOfThePipeline.

Context {unicode : UnicodeData} {quotes : QuoteTemplate}.

(** X8.  [convertToIOSStyle] returns a text without U+0027 as it is
    exactly when none of the four style expressions and not the emoji
    expression matches anywhere in the text, whatever the template of the
    single-quote replacement writes; pairs of double quotes never
    matter. *)
Theorem convert_changes_text_iff_something_matches (text : jsstring) :
  occurs 0x27 text = false ->
  convertToIOSStyle text = text
  <-> (forall k : StyleKind, test (exec_span (style_regex k)) text = false)
      /\ emojiTest text = false.
Proof. apply convert_same_iff. Qed.

(** X9.  The emoji pass only inserts U+200B: one behind every match, so
    the output is longer by the number of matches, it is the input once
    these characters are taken out of both, and it is the input itself
    exactly when the expression matches nowhere. *)
Theorem spacer_only_inserts_zero_width_spaces (text : jsstring) :
  length (improveEmojiSpacing text)
  = (length text + emoji_matches (codePoints text))%nat
  /\ without_zwsp (improveEmojiSpacing text) = without_zwsp text
  /\ (forall x : Z, x <> ZWSP -> count x (improveEmojiSpacing text) = count x text)
  /\ (improveEmojiSpacing text = text <-> emojiTest text = false).
Proof.
  split; [|split; [|split]].
  - rewrite improveEmojiSpacing_add_zwsp, length_add_zwsp. lia.
  - apply without_zwsp_improveEmojiSpacing.
  - intros x Hx. now apply count_improveEmojiSpacing.
  - apply improveEmojiSpacing_same_iff.
Qed.

(** X10.  The zero-width space goes directly behind an emoji-presentation
    scalar, whatever follows: a variation selector or a zero-width joiner
    behind the emoji is cut off from it, so an emoji sequence joined by
    U+200D comes out in pieces. *)
Theorem spacer_cuts_emoji_sequences (h l : Z) (rest : jsstring) :
  is_lead h = true -> is_trail l = true ->
  Emoji_Presentation (cp_value [h; l]) = true ->
  improveEmojiSpacing (h :: l :: rest)
  = h :: l :: ZWSP :: improveEmojiSpacing rest
  /\ improveEmojiSpacing (h :: l :: ZWJ :: rest)
     = h :: l :: ZWSP :: improveEmojiSpacing (ZWJ :: rest).
Proof.
  intros Hh Hl Hep.
  assert (Hstep : forall r, improveEmojiSpacing (h :: l :: r)
                            = h :: l :: ZWSP :: improveEmojiSpacing r).
  { intros r. unfold improveEmojiSpacing.
    rewrite codePoints_cons2, Hh, Hl. cbn [andb].
    rewrite (replace_match _ _ _ exec_emoji_progress _ [[h; l]] (codePoints r)).
    - reflexivity.
    - cbn [exec_emoji]. now rewrite Hep. }
  split; apply Hstep.
Qed.

End MoreOfThePipeline.

(** * The message handlers *)

Lemma trimStart_nil (s : jsstring) :
  trimStart s = [] <-> forallb is_white_space s = true.
Proof.
  induction s as [|u s IH]; [split; reflexivity|].
  cbn [trimStart forallb]. destruct (is_white_space u); cbn [andb].
  - exact IH.
  - split; discriminate.
Qed.

Lemma trimStart_head (s : jsstring) :
  match trimStart s with
  | [] => True
  | u :: _ => is_white_space u = false
  end.
Proof.
  induction s as [|u s IH]; [exact I|].
  cbn [trimStart]. destruct (is_white_space u) eqn:E; [exact IH | exact E].
Qed.

(** [s.trim()] is empty exactly when [s] holds white space only. *)
Lemma trim_nil (s : jsstring) :
  trim s = [] <-> forallb is_white_space s = true.
Proof.
  unfold trim. split.
  - intros H. apply trimStart_nil.
    destruct (trimStart s) as [|u t] eqn:E; [reflexivity|].
    pose proof (trimStart_head s) as Hu. rewrite E in Hu.
    apply (f_equal (@rev Z)) in H. rewrite rev_involutive in H. cbn [rev] in H.
    apply trimStart_nil in H. rewrite forallb_app in H. cbn [forallb] in H.
    rewrite Hu, andb_false_r in H. discriminate.
  - intros H. apply trimStart_nil in H. now rewrite H.
Qed.

Lemma is_empty_message_spec (s : jsstring) :
  is_empty_message s = forallb is_white_space s.
Proof.
  unfold is_empty_message. destruct s as [|u t]; [reflexivity|].
  destruct (trim (u :: t)) as [|v r] eqn:E.
  - symmetry. now apply trim_nil.
  - destruct (forallb is_white_space (u :: t)) eqn:F; [|reflexivity].
    apply trim_nil in F. congruence.
Qed.

Lemma hasFormatting_delimiter_free (s : jsstring) :
  hasFormatting s = negb (delimiter_free s).
Proof.
  unfold hasFormatting, delimiter_free. induction s as [|u s IH]; [reflexivity|].
  cbn [existsb forallb]. rewrite IH. now destruct (is_delimiter_char u).
Qed.

Section HandlerFacts.

Context {unicode : UnicodeData} {quotes : QuoteTemplate}.

(** In a text without U+0027 the pipeline changes something exactly when
    some expression of it matches. *)
Lemma convert_differs_iff (text : jsstring) :
  occurs 0x27 text = false ->
  convertToIOSStyle text <> text
  <-> test (exec_span boldRegex) text = true
      \/ test (exec_span italicRegex) text = true
      \/ test (exec_span strikethroughRegex) text = true
      \/ test (exec_span monospaceRegex) text = true
      \/ emojiTest text = true.
Proof.
  intros Hq. rewrite (convert_same_iff text Hq). split.
  - intros H.
    destruct (test (exec_span boldRegex) text) eqn:Eb; [auto|].
    destruct (test (exec_span italicRegex) text) eqn:Ei; [auto|].
    destruct (test (exec_span strikethroughRegex) text) eqn:Es; [auto|].
    destruct (test (exec_span monospaceRegex) text) eqn:Em; [auto 6|].
    destruct (emojiTest text) eqn:Ee; [auto 6|].
    exfalso. apply H. split; [|reflexivity]. intros k; destruct k; assumption.
  - intros H (Hk & He).
    pose proof (Hk Bold) as Hb. pose proof (Hk Italic) as Hi.
    pose proof (Hk Strikethrough) as Hs. pose proof (Hk Monospace) as Hm.
    cbn [style_regex] in *. intuition congruence.
Qed.

(** X11.  The handler of the main file replies exactly when the chat is
    not an ignored group, the message not an ignored broadcast, its text
    not empty and not white space only, the text has a formatting character
    if only formatted messages are processed, and the converted text
    differs from the text.  The reply is the configured prefix followed by
    the converted text.  For a text without U+0027 the converted text
    differs exactly when one of the four style expressions or the emoji
    expression matches in the text.  When the chat cannot be fetched there
    is no reply. *)
Theorem handler_replies_iff (settings : BotSettings) (chat : WA.Chat)
    (message : WA.Message) (reply : jsstring) :
  (onMessage settings (Some chat) message = Some reply
   <-> ignoreGroups settings && WA.isGroup chat = false
       /\ ignoreBroadcasts settings && WA.broadcast message = false
       /\ forallb is_white_space (WA.body message) = false
       /\ onlyProcessFormatted settings && negb (hasFormatting (WA.body message)) = false
       /\ convertToIOSStyle (WA.body message) <> WA.body message
       /\ reply = replyPrefix settings ++ convertToIOSStyle (WA.body message))
  /\ (occurs 0x27 (WA.body message) = false ->
      (convertToIOSStyle (WA.body message) <> WA.body message
       <-> test (exec_span boldRegex) (WA.body message) = true
           \/ test (exec_span italicRegex) (WA.body message) = true
           \/ test (exec_span strikethroughRegex) (WA.body message) = true
           \/ test (exec_span monospaceRegex) (WA.body message) = true
           \/ emojiTest (WA.body message) = true))
  /\ onMessage settings None message = None.
Proof.
  split; [|split; [apply convert_differs_iff | reflexivity]].
  unfold onMessage. rewrite is_empty_message_spec.
  destruct (ignoreGroups settings && WA.isGroup chat);
    [split; [discriminate | intros (H & _); discriminate]|].
  destruct (ignoreBroadcasts settings && WA.broadcast message);
    [split; [discriminate | intros (_ & H & _); discriminate]|].
  destruct (forallb is_white_space (WA.body message));
    [split; [discriminate | intros (_ & _ & H & _); discriminate]|].
  destruct (onlyProcessFormatted settings && negb (hasFormatting (WA.body message)));
    [split; [discriminate | intros (_ & _ & _ & H & _); discriminate]|].
  destruct (list_eq_dec Z.eq_dec (convertToIOSStyle (WA.body message)) (WA.body message))
    as [Heq|Hne].
  - split; [discriminate|]. intros (_ & _ & _ & _ & H & _). contradiction.
  - split.
    + intros H. inversion H. repeat split; auto.
    + intros (_ & _ & _ & _ & _ & ->). reflexivity.
Qed.

(** X12.  The handler of server.js is the handler of the main file with
    all three switches off and its own prefix; it replies exactly when the
    chat is there, the text is not white space only and the converted text
    differs from it: for a text without U+0027, when some expression
    matches in it. *)
Theorem server_handler_replies_iff (chat : option WA.Chat)
    (message : WA.Message) (reply : jsstring) :
  onMessageServer chat message
  = onMessage {| ignoreGroups := false; ignoreBroadcasts := false;
                 onlyProcessFormatted := false;
                 replyPrefix := serverReplyPrefix |} chat message
  /\ (onMessageServer chat message = Some reply
      <-> chat <> None
          /\ forallb is_white_space (WA.body message) = false
          /\ convertToIOSStyle (WA.body message) <> WA.body message
          /\ reply = serverReplyPrefix ++ convertToIOSStyle (WA.body message))
  /\ (occurs 0x27 (WA.body message) = false ->
      (onMessageServer chat message = Some reply
       <-> chat <> None
           /\ forallb is_white_space (WA.body message) = false
           /\ (test (exec_span boldRegex) (WA.body message) = true
               \/ test (exec_span italicRegex) (WA.body message) = true
               \/ test (exec_span strikethroughRegex) (WA.body message) = true
               \/ test (exec_span monospaceRegex) (WA.body message) = true
               \/ emojiTest (WA.body message) = true)
           /\ reply = serverReplyPrefix ++ convertToIOSStyle (WA.body message))).
Proof.
  split; [destruct chat; reflexivity|].
  assert (Hiff : onMessageServer chat message = Some reply
      <-> chat <> None
          /\ forallb is_white_space (WA.body message) = false
          /\ convertToIOSStyle (WA.body message) <> WA.body message
          /\ reply = serverReplyPrefix ++ convertToIOSStyle (WA.body message)).
  { unfold onMessageServer. rewrite is_empty_message_spec.
    destruct chat as [c|]; [|split; [discriminate | intros (H & _); congruence]].
    destruct (forallb is_white_space (WA.body message));
      [split; [discriminate | intros (_ & H & _); discriminate]|].
    destruct (list_eq_dec Z.eq_dec (convertToIOSStyle (WA.body message)) (WA.body message))
      as [Heq|Hne].
    - split; [discriminate|]. intros (_ & _ & H & _). contradiction.
    - split.
      + intros H. inversion H. repeat split; auto. discriminate.
      + intros (_ & _ & _ & ->). reflexivity. }
  split; [exact Hiff|].
  intros Hq. rewrite Hiff, (convert_differs_iff _ Hq). reflexivity.
Qed.

(** X13.  A message without any formatting character and without U+0027
    in which the emoji expression matches is answered by server.js, with
    the text spaced, and by the main file too unless only formatted
    messages are processed: then it is not answered. *)
Theorem emoji_only_message (settings : BotSettings) (chat : WA.Chat)
    (message : WA.Message) :
  forallb is_white_space (WA.body message) = false ->
  hasFormatting (WA.body message) = false ->
  occurs 0x27 (WA.body message) = false ->
  emojiTest (WA.body message) = true ->
  onMessageServer (Some chat) message
  = Some (serverReplyPrefix ++ improveEmojiSpacing (WA.body message))
  /\ (onlyProcessFormatted settings = true ->
      onMessage settings (Some chat) message = None)
  /\ (onlyProcessFormatted settings = false ->
      ignoreGroups settings && WA.isGroup chat = false ->
      ignoreBroadcasts settings && WA.broadcast message = false ->
      onMessage settings (Some chat) message
      = Some (replyPrefix settings ++ improveEmojiSpacing (WA.body message))).
Proof.
  intros Hblank Hfmt Hq Hemoji.
  assert (Hconv : convertToIOSStyle (WA.body message)
                  = improveEmojiSpacing (WA.body message)).
  { rewrite convert_unfold, beforeEmojiSpacing_free; [reflexivity| |exact Hq].
    rewrite hasFormatting_delimiter_free in Hfmt. now apply negb_false_iff. }
  assert (Hne : convertToIOSStyle (WA.body message) <> WA.body message)
    by (apply (convert_differs_iff _ Hq); auto 6).
  split; [|split].
  - unfold onMessageServer. rewrite is_empty_message_spec, Hblank.
    destruct (list_eq_dec Z.eq_dec _ _); [contradiction | now rewrite Hconv].
  - intros Hon. unfold onMessage. rewrite is_empty_message_spec, Hblank, Hon, Hfmt.
    destruct (ignoreGroups settings && WA.isGroup chat); [reflexivity|].
    destruct (ignoreBroadcasts settings && WA.broadcast message); reflexivity.
  - intros Hoff Hg Hb. unfold onMessage.
    rewrite is_empty_message_spec, Hblank, Hoff, Hg, Hb. cbn [andb].
    destruct (list_eq_dec Z.eq_dec _ _); [contradiction | now rewrite Hconv].
Qed.

End HandlerFacts.

(** * The QR code helper *)

Lemma is_uri_unreserved_ascii (u : Z) :
  is_uri_unreserved u = true -> 0x21 <= u <= 0x7E.
Proof.
  unfold is_uri_unreserved, is_letter, is_digit. cbn [existsb]. lia.
Qed.

Lemma unreserved_not_surrogate (c : codepoint) :
  unreserved c = true -> unpaired_surrogate c = false.
Proof.
  destruct c as [|u [|v c]]; try reflexivity. cbn [unreserved unpaired_surrogate].
  intros H. apply is_uri_unreserved_ascii in H. unfold is_surrogate. lia.
Qed.

(** [Encode] throws exactly when some code point of the string is an
    unpaired surrogate. *)
Lemma encode_none (l : list codepoint) :
  encode l = None <-> existsb unpaired_surrogate l = true.
Proof.
  induction l as [|c rest IH]; [split; discriminate|].
  cbn [encode existsb]. destruct (unreserved c) eqn:U.
  - rewrite (unreserved_not_surrogate c U). cbn [orb].
    destruct (encode rest); [split; [discriminate | intros H; apply IH in H; discriminate]|].
    split; [intros _; now apply IH | reflexivity].
  - destruct (unpaired_surrogate c); [split; reflexivity|]. cbn [orb].
    destruct (encode rest); [split; [discriminate | intros H; apply IH in H; discriminate]|].
    split; [intros _; now apply IH | reflexivity].
Qed.

(** X14.  [generateImageURL] throws exactly when the QR data holds an
    unpaired surrogate; for every other data it returns a URL that starts
    with the address of the QR service.  [GET /qr] then answers with the
    scan page, and with the page without code exactly when no code is
    stored. *)
Theorem image_url_fails_on_unpaired_surrogates (qrData : jsstring) :
  (generateImageURL qrData = None
   <-> existsb unpaired_surrogate (codePoints qrData) = true)
  /\ (forall url, generateImageURL qrData = Some url ->
        exists encodedData,
          encodeURIComponent qrData = Some encodedData
          /\ url = qrServiceURL ++ encodedData)
  /\ (forall st, qrCodeData st = qrData ->
        (qrRoute st = Thrown
         <-> existsb unpaired_surrogate (codePoints qrData) = true)
        /\ (qrRoute st = NoCode (isClientReady st) <-> qrData = [])).
Proof.
  assert (Hnone : generateImageURL qrData = None
                  <-> existsb unpaired_surrogate (codePoints qrData) = true).
  { unfold generateImageURL, encodeURIComponent. rewrite <- encode_none.
    destruct (encode (codePoints qrData)); split; congruence. }
  split; [exact Hnone|]. split.
  - intros url H. unfold generateImageURL in H.
    destruct (encodeURIComponent qrData) as [e|]; [|discriminate].
    inversion H. now exists e.
  - intros st Hst. unfold qrRoute. rewrite Hst. destruct qrData as [|u t].
    + cbn [truthy negb]. split; [split; [discriminate|] | split; reflexivity].
      cbn [codePoints existsb]. discriminate.
    + cbn [truthy negb]. rewrite <- Hnone.
      destruct (generateImageURL (u :: t)); split; split; congruence.
Qed.

Lemma hex_digit_unreserved (n : Z) :
  0 <= n < 16 -> is_uri_unreserved (hex_digit n) = true.
Proof.
  intros H.
  apply (forall_below (fun k => is_uri_unreserved (hex_digit k)) 16);
    [vm_compute; reflexivity | lia].
Qed.

Lemma percent_safe (b : Z) :
  0 <= b < 256 -> forallb url_safe (percent b) = true.
Proof.
  intros H.
  apply (forall_below (fun k => forallb url_safe (percent k)) 256);
    [vm_compute; reflexivity | lia].
Qed.

Lemma utf8_octets (c : Z) :
  0 <= c < 0x110000 ->
  forallb (fun b => (0 <=? b) && (b <? 256)) (utf8 c) = true.
Proof.
  intros H. unfold utf8.
  destruct (Z.ltb_spec c 0x80); [|destruct (Z.ltb_spec c 0x800);
    [|destruct (Z.ltb_spec c 0x10000)]]; cbn [forallb];
    rewrite ?andb_true_r;
    repeat (apply andb_true_intro; split);
    try apply Z.leb_le; try apply Z.ltb_lt;
    Z.div_mod_to_equations; lia.
Qed.

Lemma flat_map_percent_safe (bs : list Z) :
  forallb (fun b => (0 <=? b) && (b <? 256)) bs = true ->
  forallb url_safe (flat_map percent bs) = true.
Proof.
  induction bs as [|b bs IH]; [reflexivity|].
  cbn [forallb flat_map]. intros H. apply andb_prop in H. destruct H as [Hb Hbs].
  rewrite forallb_app, (IH Hbs), andb_true_r. apply percent_safe. lia.
Qed.

(** The code points of a string of 16-bit code units are scalar values or
    surrogates. *)
Lemma codePoints_values (s : jsstring) :
  code_units s = true ->
  forallb (fun c => (0 <=? cp_value c) && (cp_value c <? 0x110000)) (codePoints s)
  = true.
Proof.
  unfold code_units.
  induction s as [|a|h l t IHt IHc] using list_ind2; intros H.
  - reflexivity.
  - cbn [forallb] in *. unfold is_code_unit in H. cbn [codePoints forallb cp_value]. lia.
  - rewrite codePoints_cons2.
    cbn [forallb] in H. apply andb_prop in H. destruct H as [Hh Hlt].
    pose proof Hlt as Hlt'. cbn [forallb] in Hlt'.
    apply andb_prop in Hlt'. destruct Hlt' as [Hl Ht].
    destruct (is_lead h && is_trail l) eqn:E.
    + cbn [forallb cp_value]. rewrite (IHt Ht), andb_true_r.
      unfold is_lead, is_trail in E. lia.
    + cbn [forallb cp_value]. rewrite (IHc Hlt), andb_true_r.
      unfold is_code_unit in Hh. lia.
Qed.

Lemma encode_safe (l : list codepoint) (e : jsstring) :
  forallb (fun c => (0 <=? cp_value c) && (cp_value c <? 0x110000)) l = true ->
  encode l = Some e -> forallb url_safe e = true.
Proof.
  revert e. induction l as [|c rest IH]; intros e Hl He.
  - cbn [encode] in He. now inversion He.
  - cbn [forallb] in Hl. apply andb_prop in Hl. destruct Hl as [Hc Hrest].
    cbn [encode] in He. destruct (unreserved c) eqn:U.
    + destruct (encode rest) as [e'|]; [|discriminate]. inversion He.
      rewrite forallb_app, (IH e' Hrest eq_refl), andb_true_r.
      destruct c as [|u [|v c]]; try discriminate.
      cbn [unreserved] in U. cbn [forallb]. unfold url_safe. now rewrite U.
    + destruct (unpaired_surrogate c); [discriminate|].
      destruct (encode rest) as [e'|]; [|discriminate]. inversion He.
      rewrite forallb_app, (IH e' Hrest eq_refl), andb_true_r.
      apply flat_map_percent_safe, utf8_octets. lia.
Qed.

(** X15.  Behind the address of the QR service the URL holds nothing but
    letters, digits, [- _ . ! ~ * ' ( )] and [%]: whatever the QR data is,
    no quote, angle bracket, blank, [&], [=] or [#] of it reaches the page
    or the query string. *)
Theorem image_url_is_escaped (qrData url : jsstring) :
  code_units qrData = true ->
  generateImageURL qrData = Some url ->
  exists encodedData,
    url = qrServiceURL ++ encodedData
    /\ forallb url_safe encodedData = true
    /\ (forall x, In x [0x22; 0x3C; 0x3E; 0x20; 0x26; 0x3D; 0x23] ->
          occurs x encodedData = false).
Proof.
  intros Hs H. unfold generateImageURL, encodeURIComponent in H.
  destruct (encode (codePoints qrData)) as [e|] eqn:E; [|discriminate].
  inversion H. exists e. split; [reflexivity|].
  assert (Hsafe : forallb url_safe e = true)
    by (eapply encode_safe; [apply codePoints_values; exact Hs | exact E]).
  split; [exact Hsafe|].
  intros x Hx. apply occurs_false. intros Hin.
  rewrite forallb_forall in Hsafe. specialize (Hsafe x Hin).
  cbn [In] in Hx. unfold url_safe in Hsafe.
  destruct Hx as [<-|[<-|[<-|[<-|[<-|[<-|[<-|[]]]]]]]]; discriminate.
Qed.

Lemma codePoints_no_surrogates (s : jsstring) :
  forallb (fun u => negb (is_surrogate u)) s = true ->
  codePoints s = map (fun u => [u]) s.
Proof.
  induction s as [|a|h l t IHt IHc] using list_ind2; intros H; try reflexivity.
  rewrite codePoints_cons2. cbn [forallb] in H.
  apply andb_prop in H. destruct H as [Hh Hrest].
  assert (is_lead h = false) as ->.
  { unfold is_surrogate, is_lead in *. lia. }
  cbn [andb map]. now rewrite IHc.
Qed.

(** X16.  QR data made of unreserved characters only stands in the URL as
    it is. *)
Theorem image_url_keeps_unreserved_data (qrData : jsstring) :
  forallb is_uri_unreserved qrData = true ->
  generateImageURL qrData = Some (qrServiceURL ++ qrData).
Proof.
  intros H. unfold generateImageURL, encodeURIComponent.
  assert (Hns : forallb (fun u => negb (is_surrogate u)) qrData = true).
  { rewrite forallb_forall in *. intros u Hu.
    pose proof (is_uri_unreserved_ascii u (H u Hu)). unfold is_surrogate. lia. }
  rewrite (codePoints_no_surrogates qrData Hns).
  assert (encode (map (fun u => [u]) qrData) = Some qrData) as ->; [|reflexivity].
  clear Hns. induction qrData as [|u t IH]; [reflexivity|].
  cbn [forallb] in H. apply andb_prop in H. destruct H as [Hu Ht].
  cbn [map encode unreserved]. now rewrite Hu, (IH Ht).
Qed.

(** ** Different data, different URLs *)

Lemma codePoints_wf (s : jsstring) :
  code_units s = true -> forallb chunk_wf (codePoints s) = true.
Proof.
  unfold code_units.
  induction s as [|a|h l t IHt IHc] using list_ind2; intros H.
  - reflexivity.
  - cbn [forallb] in H. cbn [codePoints forallb chunk_wf].
    apply andb_prop in H. destruct H as [H _]. now rewrite H.
  - rewrite codePoints_cons2.
    cbn [forallb] in H. apply andb_prop in H. destruct H as [Hh Hlt].
    pose proof Hlt as Hlt'. cbn [forallb] in Hlt'.
    apply andb_prop in Hlt'. destruct Hlt' as [Hl Ht].
    destruct (is_lead h && is_trail l) eqn:E.
    + cbn [forallb chunk_wf]. now rewrite E, (IHt Ht).
    + cbn [forallb chunk_wf]. now rewrite Hh, (IHc Hlt).
Qed.

Lemma chunk_wf_value (c : codepoint) :
  chunk_wf c = true -> 0 <= cp_value c < 0x110000.
Proof.
  destruct c as [|h [|l [|x c]]]; try discriminate; cbn [chunk_wf cp_value].
  - unfold is_code_unit. lia.
  - unfold is_lead, is_trail. lia.
Qed.

(** Two code points with the same scalar value are the same code units. *)
Lemma cp_value_inj (c1 c2 : codepoint) :
  chunk_wf c1 = true -> chunk_wf c2 = true ->
  cp_value c1 = cp_value c2 -> c1 = c2.
Proof.
  destruct c1 as [|h1 [|l1 [|x1 c1]]]; try discriminate;
    destruct c2 as [|h2 [|l2 [|x2 c2]]]; try discriminate;
    cbn [chunk_wf cp_value]; unfold is_code_unit, is_lead, is_trail;
    intros H1 H2 Hv.
  - congruence.
  - exfalso. lia.
  - exfalso. lia.
  - assert (h1 = h2 /\ l1 = l2) as [-> ->] by lia. reflexivity.
Qed.

Lemma hex_digit_inj (a b : Z) :
  0 <= a < 16 -> 0 <= b < 16 -> hex_digit a = hex_digit b -> a = b.
Proof.
  unfold hex_digit. intros Ha Hb.
  destruct (Z.ltb_spec a 10), (Z.ltb_spec b 10); lia.
Qed.

Lemma percent_inj (b1 b2 : Z) :
  0 <= b1 < 256 -> 0 <= b2 < 256 -> percent b1 = percent b2 -> b1 = b2.
Proof.
  intros H1 H2 H. unfold percent in H. inversion H as [[Hhi Hlo]].
  apply hex_digit_inj in Hhi; [|Z.div_mod_to_equations; lia ..].
  apply hex_digit_inj in Hlo; [|Z.div_mod_to_equations; lia ..].
  Z.div_mod_to_equations. lia.
Qed.

(** Escaped octets can be read back one by one. *)
Lemma percent_head (b1 b2 : Z) (r1 r2 : jsstring) :
  0 <= b1 < 256 -> 0 <= b2 < 256 ->
  percent b1 ++ r1 = percent b2 ++ r2 -> b1 = b2 /\ r1 = r2.
Proof.
  intros H1 H2 H. unfold percent in H. cbn [app] in H.
  injection H as Hhi Hlo Hr. split; [|exact Hr].
  apply percent_inj; try assumption. unfold percent. now rewrite Hhi, Hlo.
Qed.

Lemma utf8_range (c : Z) (b : Z) :
  0 <= c < 0x110000 -> In b (utf8 c) -> 0 <= b < 256.
Proof.
  intros Hc Hin. pose proof (utf8_octets c Hc) as H.
  rewrite forallb_forall in H. specialize (H b Hin). lia.
Qed.

(** UTF-8 is a prefix code: the octets of a scalar value followed by
    anything determine the scalar value and what follows. *)
Lemma utf8_percent_prefix (v1 v2 : Z) (e1 e2 : jsstring) :
  0 <= v1 < 0x110000 -> 0 <= v2 < 0x110000 ->
  flat_map percent (utf8 v1) ++ e1 = flat_map percent (utf8 v2) ++ e2 ->
  v1 = v2 /\ e1 = e2.
Proof.
  intros H1 H2 H.
  pose proof (fun b => utf8_range v1 b H1) as R1.
  pose proof (fun b => utf8_range v2 b H2) as R2.
  unfold utf8 in *. revert R1 R2 H.
  destruct (Z.ltb_spec v1 0x80) as [A1|A1];
    [|destruct (Z.ltb_spec v1 0x800) as [B1|B1];
      [|destruct (Z.ltb_spec v1 0x10000) as [C1|C1]]];
  (destruct (Z.ltb_spec v2 0x80) as [A2|A2];
    [|destruct (Z.ltb_spec v2 0x800) as [B2|B2];
      [|destruct (Z.ltb_spec v2 0x10000) as [C2|C2]]]);
  intros R1 R2 H;
  cbn [flat_map] in H; rewrite <- ?app_assoc in H;
  repeat match type of H with
  | percent ?a ++ _ = percent ?b ++ _ =>
      let Hb := fresh "Hb" in
      apply percent_head in H;
      [destruct H as [Hb H]
      | apply R1; cbn [In]; auto 10
      | apply R2; cbn [In]; auto 10]
  end;
  cbn [app] in H; clear R1 R2;
  try (split; [Z.div_mod_to_equations; lia | exact H]);
  exfalso; Z.div_mod_to_equations; lia.
Qed.

Lemma flat_map_percent_head (v : Z) :
  exists r, flat_map percent (utf8 v) = 0x25 :: r.
Proof.
  unfold utf8.
  destruct (v <? 0x80); [|destruct (v <? 0x800); [|destruct (v <? 0x10000)]];
    eexists; reflexivity.
Qed.

(** [Encode] never gives the same result for two different lists of code
    points. *)
Lemma encode_inj (l1 : list codepoint) :
  forall (l2 : list codepoint) (e : jsstring),
    forallb chunk_wf l1 = true -> forallb chunk_wf l2 = true ->
    encode l1 = Some e -> encode l2 = Some e -> l1 = l2.
Proof.
  assert (Hne : forall c rest e, chunk_wf c = true ->
                  encode (c :: rest) = Some e -> e <> []).
  { intros c rest e Hc He. cbn [encode] in He. destruct (unreserved c) eqn:U.
    - destruct (encode rest); [|discriminate]. inversion He.
      destruct c as [|u [|v c]]; discriminate.
    - destruct (unpaired_surrogate c); [discriminate|].
      destruct (encode rest); [|discriminate]. inversion He.
      destruct (flat_map_percent_head (cp_value c)) as [r ->]. discriminate. }
  induction l1 as [|c1 r1 IH]; intros l2 e W1 W2 E1 E2.
  - cbn [encode] in E1. inversion E1; subst e.
    destruct l2 as [|c2 r2]; [reflexivity|].
    cbn [forallb] in W2. apply andb_prop in W2. destruct W2 as [Wc _].
    exfalso. now apply (Hne c2 r2 [] Wc E2).
  - cbn [forallb] in W1. apply andb_prop in W1. destruct W1 as [Wc1 Wr1].
    destruct l2 as [|c2 r2].
    { cbn [encode] in E2. inversion E2; subst e.
      exfalso. now apply (Hne c1 r1 [] Wc1 E1). }
    cbn [forallb] in W2. apply andb_prop in W2. destruct W2 as [Wc2 Wr2].
    cbn [encode] in E1, E2.
    destruct (unreserved c1) eqn:U1; destruct (unreserved c2) eqn:U2.
    + destruct (encode r1) as [e1|] eqn:R1; [|discriminate].
      destruct (encode r2) as [e2|] eqn:R2; [|discriminate].
      destruct c1 as [|u1 [|x1 c1]]; try discriminate.
      destruct c2 as [|u2 [|x2 c2]]; try discriminate.
      inversion E1; subst e. inversion E2 as [Heq]. cbn [app] in Heq.
      inversion Heq; subst. f_equal. now apply (IH r2 e1).
    + destruct (encode r1) as [e1|] eqn:R1; [|discriminate].
      destruct (unpaired_surrogate c2); [discriminate|].
      destruct (encode r2) as [e2|] eqn:R2; [|discriminate].
      destruct c1 as [|u1 [|x1 c1]]; try discriminate.
      destruct (flat_map_percent_head (cp_value c2)) as [r Hr].
      inversion E1; subst e. inversion E2 as [Heq]. rewrite Hr in Heq.
      cbn [app] in Heq. inversion Heq; subst. discriminate.
    + destruct (unpaired_surrogate c1); [discriminate|].
      destruct (encode r1) as [e1|] eqn:R1; [|discriminate].
      destruct (encode r2) as [e2|] eqn:R2; [|discriminate].
      destruct c2 as [|u2 [|x2 c2]]; try discriminate.
      destruct (flat_map_percent_head (cp_value c1)) as [r Hr].
      inversion E1; subst e. inversion E2 as [Heq]. rewrite Hr in Heq.
      cbn [app] in Heq. inversion Heq; subst. discriminate.
    + destruct (unpaired_surrogate c1); [discriminate|].
      destruct (unpaired_surrogate c2); [discriminate|].
      destruct (encode r1) as [e1|] eqn:R1; [|discriminate].
      destruct (encode r2) as [e2|] eqn:R2; [|discriminate].
      inversion E1; subst e. inversion E2 as [Heq].
      apply utf8_percent_prefix in Heq; try now apply chunk_wf_value.
      destruct Heq as [Hv He]. subst e2.
      f_equal; [symmetry; now apply cp_value_inj | now apply (IH r2 e1)].
Qed.

(** X17.  Different QR data never give the same URL: the data can be read
    back from the URL. *)
Theorem image_url_is_injective (qrData1 qrData2 url : jsstring) :
  code_units qrData1 = true -> code_units qrData2 = true ->
  generateImageURL qrData1 = Some url ->
  generateImageURL qrData2 = Some url ->
  qrData1 = qrData2.
Proof.
  intros W1 W2 H1 H2. unfold generateImageURL, encodeURIComponent in *.
  destruct (encode (codePoints qrData1)) as [e1|] eqn:E1; [|discriminate].
  destruct (encode (codePoints qrData2)) as [e2|] eqn:E2; [|discriminate].
  assert (Heq : qrServiceURL ++ e2 = qrServiceURL ++ e1) by congruence.
  apply app_inv_head in Heq. subst e2.
  rewrite <- (concat_codePoints qrData1), <- (concat_codePoints qrData2).
  f_equal. apply (encode_inj _ _ e1); auto using codePoints_wf.
Qed.

(** * Client status *)

Lemma run_app (a b : list ClientEvent) :
  run (a ++ b) = fold_left onEvent b (run a).
Proof. apply fold_left_app. Qed.

Lemma runServer_app (a b : list ClientEvent) :
  runServer (a ++ b) = fold_left onEventServer b (runServer a).
Proof. apply fold_left_app. Qed.

Lemma qrCodeData_without_qr (events : list ClientEvent) (st : BotState) :
  forallb (fun e => negb (is_qr e)) events = true ->
  qrCodeData (fold_left onEvent events st) = qrCodeData st
  \/ qrCodeData (fold_left onEvent events st) = [].
Proof.
  revert st. induction events as [|e events IH]; intros st H; [now left|].
  cbn [forallb] in H. apply andb_prop in H. destruct H as [He Hrest].
  cbn [fold_left]. destruct (IH (onEvent st e) Hrest) as [Hk|Hk].
  - destruct e; try discriminate; cbn [onEvent qrCodeData] in Hk; auto.
  - now right.
Qed.

(** X18.  In the main file a code received before ['ready'] is gone for
    good: after a ['ready'] event and until the next ['qr'] event, whatever
    else happens (disconnections included), no code is stored, [GET
    /status] reports [qrAvailable: false] and [GET /qr] answers with the
    page without code. *)
Theorem ready_discards_the_code (before after : list ClientEvent) :
  forallb (fun e => negb (is_qr e)) after = true ->
  qrCodeData (run (before ++ EvReady :: after)) = []
  /\ snd (status (run (before ++ EvReady :: after))) = false
  /\ qrRoute (run (before ++ EvReady :: after))
     = NoCode (isClientReady (run (before ++ EvReady :: after))).
Proof.
  intros H.
  assert (Hq : qrCodeData (run (before ++ EvReady :: after)) = []).
  { rewrite run_app. cbn [fold_left].
    destruct (qrCodeData_without_qr after (onEvent (run before) EvReady) H)
      as [Hk|Hk]; rewrite Hk; reflexivity. }
  split; [exact Hq|]. unfold status, qrRoute. rewrite Hq. split; reflexivity.
Qed.

Lemma lastQr_app (a b : list ClientEvent) (seen : jsstring) :
  lastQr (a ++ b) seen = lastQr b (lastQr a seen).
Proof.
  revert seen. induction a as [|e a IH]; intros seen; [reflexivity|].
  destruct e; cbn [app lastQr]; apply IH.
Qed.

Lemma qrCodeData_server (events : list ClientEvent) (st : BotState) :
  qrCodeData (fold_left onEventServer events st) = lastQr events (qrCodeData st).
Proof.
  revert st. induction events as [|e events IH]; intros st; [reflexivity|].
  cbn [fold_left]. rewrite IH. destruct e; reflexivity.
Qed.

(** X19.  server.js never discards a code: what it stores is the code of
    the last ['qr'] event there ever was, and [GET /status] hands it out
    whenever the client is not connected, also a code that was received
    before a connection that has ended since. *)
Theorem server_keeps_the_last_code (events : list ClientEvent) :
  qrCodeData (runServer events) = lastQr events []
  /\ (isClientReady (runServer events) = false ->
      statusServer (runServer events) = (false, Some (lastQr events [])))
  /\ (forall qr now before,
        statusServer (runServer (before ++ [EvQr qr now; EvReady; EvDisconnected]))
        = (false, Some qr)).
Proof.
  assert (H : qrCodeData (runServer events) = lastQr events [])
    by apply qrCodeData_server.
  split; [exact H|]. split.
  - intros Hr. unfold statusServer. now rewrite Hr, H.
  - intros qr now before. unfold statusServer.
    rewrite runServer_app. cbn [fold_left onEventServer isClientReady qrCodeData negb].
    reflexivity.
Qed.

Lemma isClientReady_kept (events : list ClientEvent) (st : BotState) :
  forallb keeps_connection events = true ->
  isClientReady (fold_left onEvent events st) = isClientReady st
  /\ isClientReady (fold_left onEventServer events st) = isClientReady st.
Proof.
  revert st. induction events as [|e events IH]; intros st H; [split; reflexivity|].
  cbn [forallb] in H. apply andb_prop in H. destruct H as [He Hrest].
  cbn [fold_left].
  destruct (IH (onEvent st e) Hrest) as [H1 _].
  destruct (IH (onEventServer st e) Hrest) as [_ H2].
  rewrite H1, H2. destruct e; try discriminate; split; reflexivity.
Qed.

(** X20.  In both files the connection flag is decided by the last
    ['ready'] or ['disconnected'] event alone: it is set after a ['ready']
    and cleared after a ['disconnected'], whatever ['qr'] and
    authentication events follow, and it is clear before the first of
    them. *)
Theorem connection_follows_last_event (before after : list ClientEvent) :
  forallb keeps_connection after = true ->
  isClientReady (run (before ++ EvReady :: after)) = true
  /\ isClientReady (run (before ++ EvDisconnected :: after)) = false
  /\ isClientReady (runServer (before ++ EvReady :: after)) = true
  /\ isClientReady (runServer (before ++ EvDisconnected :: after)) = false
  /\ isClientReady (run after) = false
  /\ isClientReady (runServer after) = false.
Proof.
  intros H. rewrite !run_app, !runServer_app. cbn [fold_left].
  unfold run, runServer.
  repeat split;
    first [ rewrite (proj1 (isClientReady_kept after _ H))
          | rewrite (proj2 (isClientReady_kept after _ H)) ];
    reflexivity.
Qed.

(** * More runs *)

(** [Hi] struck through and the marks taken out again. *)
Lemma strikethrough_marks_can_be_removed_witness :
  occurs 0x0336 [0x48; 0x69] = false
  /\ filter (fun u => negb (u =? 0x0336)) (toStrikethroughUnicode [0x48; 0x69])
     = [0x48; 0x69].
Proof.
  assert (H : occurs 0x0336 [0x48; 0x69] = false) by (vm_compute; reflexivity).
  split; [exact H|].
  destruct (strikethrough_marks_can_be_removed [0x48; 0x69] H) as [Hback _].
  exact Hback.
Defined.

(** The quoted [hi] of [say ] U+0022 [hi] U+0022 through the quote pass with
    curly quotes in the second template. *)
Lemma double_quotes_are_written_back_witness :
  occurs 0x27 [0x73; 0x61; 0x79; 0x20; 0x22; 0x68; 0x69; 0x22] = false
  /\ @convertQuotes CurlyQuotes [0x73; 0x61; 0x79; 0x20; 0x22; 0x68; 0x69; 0x22]
     = [0x73; 0x61; 0x79; 0x20; 0x22; 0x68; 0x69; 0x22].
Proof.
  assert (H : occurs 0x27 [0x73; 0x61; 0x79; 0x20; 0x22; 0x68; 0x69; 0x22] = false)
    by (vm_compute; reflexivity).
  split; [exact H|].
  destruct (@double_quotes_are_written_back CurlyQuotes
              [0x73; 0x61; 0x79; 0x20; 0x22; 0x68; 0x69; 0x22]) as (_ & _ & Hsame).
  exact (Hsame H).
Defined.

(** The asterisks of [*a*b*c*] through the bold pass: four go in, none
    comes out, two spans; and no span in [a*b]. *)
Lemma delimiters_leave_in_pairs_witness :
  count (delimiter_char Bold) [0x2A; 0x61; 0x2A; 0x62; 0x2A; 0x63; 0x2A]
  = Nat.add
      (count (delimiter_char Bold)
         (rewrite Bold [0x2A; 0x61; 0x2A; 0x62; 0x2A; 0x63; 0x2A]))
      (Nat.mul (span_count Bold [0x2A; 0x61; 0x2A; 0x62; 0x2A; 0x63; 0x2A])
         (Nat.mul 2 (length (delimiter Bold))))
  /\ test (exec_span (style_regex Bold)) [0x61; 0x2A; 0x62] = false
  /\ span_count Bold [0x61; 0x2A; 0x62] = 0%nat.
Proof.
  destruct (delimiters_leave_in_pairs Bold
              [0x2A; 0x61; 0x2A; 0x62; 0x2A; 0x63; 0x2A]) as (Hcount & _).
  destruct (delimiters_leave_in_pairs Bold [0x61; 0x2A; 0x62])
    as (_ & _ & Hzero & _).
  assert (H : test (exec_span (style_regex Bold)) [0x61; 0x2A; 0x62] = false)
    by (vm_compute; reflexivity).
  split; [exact Hcount|]. split; [exact H|].
  exact (proj2 Hzero H).
Defined.

(** The underscores of [*a_b*_] through the bold pass. *)
Lemma pass_keeps_other_characters_witness :
  count 0x5F (rewrite Bold [0x2A; 0x61; 0x5F; 0x62; 0x2A; 0x5F])
  = count 0x5F [0x2A; 0x61; 0x5F; 0x62; 0x2A; 0x5F].
Proof.
  refine (pass_keeps_other_characters Bold 0x5F
            [0x2A; 0x61; 0x5F; 0x62; 0x2A; 0x5F] _ _ _ _ _);
    try (vm_compute; reflexivity);
    intros E; vm_compute in E; discriminate E.
Defined.

(** The italic pass on [a*b]. *)
Lemma pass_changes_text_iff_it_matches_witness :
  test (exec_span (style_regex Italic)) [0x61; 0x2A; 0x62] = false
  /\ rewrite Italic [0x61; 0x2A; 0x62] = [0x61; 0x2A; 0x62].
Proof.
  assert (H : test (exec_span (style_regex Italic)) [0x61; 0x2A; 0x62] = false)
    by (vm_compute; reflexivity).
  split; [exact H|].
  exact (proj2 (pass_changes_text_iff_it_matches Italic [0x61; 0x2A; 0x62]) H).
Defined.

(** The pipeline on [a*b]. *)
Lemma convert_changes_text_iff_something_matches_witness :
  occurs 0x27 [0x61; 0x2A; 0x62] = false
  /\ @convertToIOSStyle Unicode14 CurlyQuotes [0x61; 0x2A; 0x62] = [0x61; 0x2A; 0x62].
Proof.
  assert (H : occurs 0x27 [0x61; 0x2A; 0x62] = false) by (vm_compute; reflexivity).
  split; [exact H|].
  refine (proj2 (@convert_changes_text_iff_something_matches Unicode14 CurlyQuotes
                   [0x61; 0x2A; 0x62] H) _).
  split; [intros k; destruct k; vm_compute; reflexivity | vm_compute; reflexivity].
Defined.

(** The spacer on [Hi]. *)
Lemma spacer_only_inserts_zero_width_spaces_witness :
  @emojiTest Unicode14 [0x48; 0x69] = false
  /\ @improveEmojiSpacing Unicode14 [0x48; 0x69] = [0x48; 0x69].
Proof.
  assert (H : @emojiTest Unicode14 [0x48; 0x69] = false) by (vm_compute; reflexivity).
  split; [exact H|].
  destruct (@spacer_only_inserts_zero_width_spaces Unicode14 [0x48; 0x69])
    as (_ & _ & _ & Hiff).
  exact (proj2 Hiff H).
Defined.

(** U+1F468, U+200D, U+1F469: the man, the joiner and the woman of a
    family sequence. *)
Lemma spacer_cuts_emoji_sequences_witness :
  is_lead 0xD83D = true /\ is_trail 0xDC68 = true
  /\ @Emoji_Presentation Unicode14 (cp_value [0xD83D; 0xDC68]) = true
  /\ @improveEmojiSpacing Unicode14 [0xD83D; 0xDC68; ZWJ; 0xD83D; 0xDC69]
     = 0xD83D :: 0xDC68 :: ZWSP
       :: @improveEmojiSpacing Unicode14 [ZWJ; 0xD83D; 0xDC69].
Proof.
  assert (H1 : is_lead 0xD83D = true) by (vm_compute; reflexivity).
  assert (H2 : is_trail 0xDC68 = true) by (vm_compute; reflexivity).
  assert (H3 : @Emoji_Presentation Unicode14 (cp_value [0xD83D; 0xDC68]) = true)
    by (vm_compute; reflexivity).
  split; [exact H1|]. split; [exact H2|]. split; [exact H3|].
  destruct (@spacer_cuts_emoji_sequences Unicode14 0xD83D 0xDC68
              [0xD83D; 0xDC69] H1 H2 H3) as [_ Hcut].
  exact Hcut.
Defined.

(** [*Hi*] sent to a bot that ignores groups, in a chat that is none. *)
Lemma handler_replies_iff_witness :
  occurs 0x27 [0x2A; 0x48; 0x69; 0x2A] = false
  /\ @convertToIOSStyle Unicode14 CurlyQuotes [0x2A; 0x48; 0x69; 0x2A]
     <> [0x2A; 0x48; 0x69; 0x2A]
  /\ @onMessage Unicode14 CurlyQuotes
       {| ignoreGroups := true; ignoreBroadcasts := true;
          onlyProcessFormatted := true; replyPrefix := [0x3E; 0x20] |}
       (Some {| WA.isGroup := false |})
       {| WA.body := [0x2A; 0x48; 0x69; 0x2A]; WA.broadcast := false |}
     = Some ([0x3E; 0x20]
             ++ @convertToIOSStyle Unicode14 CurlyQuotes [0x2A; 0x48; 0x69; 0x2A]).
Proof.
  destruct (@handler_replies_iff Unicode14 CurlyQuotes
    {| ignoreGroups := true; ignoreBroadcasts := true;
       onlyProcessFormatted := true; replyPrefix := [0x3E; 0x20] |}
    {| WA.isGroup := false |}
    {| WA.body := [0x2A; 0x48; 0x69; 0x2A]; WA.broadcast := false |}
    ([0x3E; 0x20] ++ @convertToIOSStyle Unicode14 CurlyQuotes [0x2A; 0x48; 0x69; 0x2A]))
    as (Hiff & Hdiffers & _).
  assert (Hq : occurs 0x27 [0x2A; 0x48; 0x69; 0x2A] = false) by (vm_compute; reflexivity).
  assert (Hne : @convertToIOSStyle Unicode14 CurlyQuotes [0x2A; 0x48; 0x69; 0x2A]
                <> [0x2A; 0x48; 0x69; 0x2A]).
  { apply (proj2 (Hdiffers Hq)). left. vm_compute; reflexivity. }
  split; [exact Hq|]. split; [exact Hne|].
  refine (proj2 Hiff _).
  split; [vm_compute; reflexivity|]. split; [vm_compute; reflexivity|].
  split; [vm_compute; reflexivity|]. split; [vm_compute; reflexivity|].
  split; [exact Hne | reflexivity].
Defined.

(** [*Hi*] sent to server.js. *)
Lemma server_handler_replies_iff_witness :
  occurs 0x27 [0x2A; 0x48; 0x69; 0x2A] = false
  /\ @onMessageServer Unicode14 CurlyQuotes (Some {| WA.isGroup := true |})
       {| WA.body := [0x2A; 0x48; 0x69; 0x2A]; WA.broadcast := false |}
     = Some (serverReplyPrefix
             ++ @convertToIOSStyle Unicode14 CurlyQuotes [0x2A; 0x48; 0x69; 0x2A]).
Proof.
  assert (Hq : occurs 0x27 [0x2A; 0x48; 0x69; 0x2A] = false) by (vm_compute; reflexivity).
  split; [exact Hq|].
  destruct (@server_handler_replies_iff Unicode14 CurlyQuotes (Some {| WA.isGroup := true |})
    {| WA.body := [0x2A; 0x48; 0x69; 0x2A]; WA.broadcast := false |}
    (serverReplyPrefix ++ @convertToIOSStyle Unicode14 CurlyQuotes [0x2A; 0x48; 0x69; 0x2A]))
    as (_ & _ & Hiff).
  refine (proj2 (Hiff Hq) _).
  split; [discriminate|]. split; [vm_compute; reflexivity|].
  split; [left; vm_compute; reflexivity | reflexivity].
Defined.

(** [Hi ] U+1F600 sent to server.js. *)
Lemma emoji_only_message_witness :
  forallb is_white_space [0x48; 0x69; 0x20; 0xD83D; 0xDE00] = false
  /\ hasFormatting [0x48; 0x69; 0x20; 0xD83D; 0xDE00] = false
  /\ occurs 0x27 [0x48; 0x69; 0x20; 0xD83D; 0xDE00] = false
  /\ @emojiTest Unicode14 [0x48; 0x69; 0x20; 0xD83D; 0xDE00] = true
  /\ @onMessageServer Unicode14 CurlyQuotes (Some {| WA.isGroup := false |})
       {| WA.body := [0x48; 0x69; 0x20; 0xD83D; 0xDE00]; WA.broadcast := false |}
     = Some (serverReplyPrefix
             ++ @improveEmojiSpacing Unicode14 [0x48; 0x69; 0x20; 0xD83D; 0xDE00]).
Proof.
  assert (H1 : forallb is_white_space [0x48; 0x69; 0x20; 0xD83D; 0xDE00] = false)
    by (vm_compute; reflexivity).
  assert (H2 : hasFormatting [0x48; 0x69; 0x20; 0xD83D; 0xDE00] = false)
    by (vm_compute; reflexivity).
  assert (Hq : occurs 0x27 [0x48; 0x69; 0x20; 0xD83D; 0xDE00] = false)
    by (vm_compute; reflexivity).
  assert (H3 : @emojiTest Unicode14 [0x48; 0x69; 0x20; 0xD83D; 0xDE00] = true)
    by (vm_compute; reflexivity).
  split; [exact H1|]. split; [exact H2|]. split; [exact Hq|]. split; [exact H3|].
  destruct (@emoji_only_message Unicode14 CurlyQuotes
    {| ignoreGroups := false; ignoreBroadcasts := false;
       onlyProcessFormatted := true; replyPrefix := [] |}
    {| WA.isGroup := false |}
    {| WA.body := [0x48; 0x69; 0x20; 0xD83D; 0xDE00]; WA.broadcast := false |}
    H1 H2 Hq H3) as [Hserver _].
  exact Hserver.
Defined.

(** QR data that ends in a lead surrogate. *)
Lemma image_url_fails_on_unpaired_surrogates_witness :
  existsb unpaired_surrogate (codePoints [0x61; 0xD83D]) = true
  /\ generateImageURL [0x61; 0xD83D] = None.
Proof.
  assert (H : existsb unpaired_surrogate (codePoints [0x61; 0xD83D]) = true)
    by (vm_compute; reflexivity).
  split; [exact H|].
  destruct (image_url_fails_on_unpaired_surrogates [0x61; 0xD83D]) as [Hiff _].
  exact (proj2 Hiff H).
Defined.

(** The QR data [a b&c] and U+00E9. *)
Lemma image_url_is_escaped_witness :
  code_units [0x61; 0x20; 0x62; 0x26; 0x63; 0xE9] = true
  /\ generateImageURL [0x61; 0x20; 0x62; 0x26; 0x63; 0xE9]
     = Some (qrServiceURL
             ++ [0x61; 0x25; 0x32; 0x30; 0x62; 0x25; 0x32; 0x36; 0x63;
                 0x25; 0x43; 0x33; 0x25; 0x41; 0x39])
  /\ exists encodedData,
       qrServiceURL
       ++ [0x61; 0x25; 0x32; 0x30; 0x62; 0x25; 0x32; 0x36; 0x63;
           0x25; 0x43; 0x33; 0x25; 0x41; 0x39]
       = qrServiceURL ++ encodedData
       /\ forallb url_safe encodedData = true
       /\ (forall x, In x [0x22; 0x3C; 0x3E; 0x20; 0x26; 0x3D; 0x23] ->
             occurs x encodedData = false).
Proof.
  assert (H1 : code_units [0x61; 0x20; 0x62; 0x26; 0x63; 0xE9] = true)
    by (vm_compute; reflexivity).
  assert (H2 : generateImageURL [0x61; 0x20; 0x62; 0x26; 0x63; 0xE9]
     = Some (qrServiceURL
             ++ [0x61; 0x25; 0x32; 0x30; 0x62; 0x25; 0x32; 0x36; 0x63;
                 0x25; 0x43; 0x33; 0x25; 0x41; 0x39]))
    by (vm_compute; reflexivity).
  split; [exact H1|]. split; [exact H2|].
  exact (image_url_is_escaped _ _ H1 H2).
Defined.

(** The QR data [abc-1]. *)
Lemma image_url_keeps_unreserved_data_witness :
  forallb is_uri_unreserved [0x61; 0x62; 0x63; 0x2D; 0x31] = true
  /\ generateImageURL [0x61; 0x62; 0x63; 0x2D; 0x31]
     = Some (qrServiceURL ++ [0x61; 0x62; 0x63; 0x2D; 0x31]).
Proof.
  assert (H : forallb is_uri_unreserved [0x61; 0x62; 0x63; 0x2D; 0x31] = true)
    by (vm_compute; reflexivity).
  split; [exact H|].
  exact (image_url_keeps_unreserved_data _ H).
Defined.

(** The QR data [a,b], twice. *)
Lemma image_url_is_injective_witness :
  code_units [0x61; 0x2C; 0x62] = true
  /\ generateImageURL [0x61; 0x2C; 0x62]
     = Some (qrServiceURL ++ [0x61; 0x25; 0x32; 0x43; 0x62])
  /\ [0x61; 0x2C; 0x62] = [0x61; 0x2C; 0x62].
Proof.
  assert (H1 : code_units [0x61; 0x2C; 0x62] = true) by (vm_compute; reflexivity).
  assert (H2 : generateImageURL [0x61; 0x2C; 0x62]
               = Some (qrServiceURL ++ [0x61; 0x25; 0x32; 0x43; 0x62]))
    by (vm_compute; reflexivity).
  split; [exact H1|]. split; [exact H2|].
  exact (image_url_is_injective _ _ _ H1 H1 H2 H2).
Defined.

(** A code, a connection and its end. *)
Lemma ready_discards_the_code_witness :
  forallb (fun e => negb (is_qr e)) [EvDisconnected] = true
  /\ qrCodeData (run ([EvQr [0x31; 0x40; 0x61] 5] ++ EvReady :: [EvDisconnected])) = [].
Proof.
  assert (H : forallb (fun e => negb (is_qr e)) [EvDisconnected] = true)
    by reflexivity.
  split; [exact H|].
  destruct (ready_discards_the_code [EvQr [0x31; 0x40; 0x61] 5] [EvDisconnected] H)
    as [Hgone _].
  exact Hgone.
Defined.

(** The same events in server.js. *)
Lemma server_keeps_the_last_code_witness :
  isClientReady (runServer [EvQr [0x31; 0x40; 0x61] 5; EvReady; EvDisconnected]) = false
  /\ statusServer (runServer [EvQr [0x31; 0x40; 0x61] 5; EvReady; EvDisconnected])
     = (false, Some (lastQr [EvQr [0x31; 0x40; 0x61] 5; EvReady; EvDisconnected] [])).
Proof.
  assert (H : isClientReady
                (runServer [EvQr [0x31; 0x40; 0x61] 5; EvReady; EvDisconnected]) = false)
    by reflexivity.
  split; [exact H|].
  destruct (server_keeps_the_last_code
              [EvQr [0x31; 0x40; 0x61] 5; EvReady; EvDisconnected]) as (_ & Hout & _).
  exact (Hout H).
Defined.

(** A new code while connected. *)
Lemma connection_follows_last_event_witness :
  forallb keeps_connection [EvQr [0x31] 7; EvAuthenticated] = true
  /\ isClientReady (run ([EvDisconnected] ++ EvReady :: [EvQr [0x31] 7; EvAuthenticated]))
     = true.
Proof.
  assert (H : forallb keeps_connection [EvQr [0x31] 7; EvAuthenticated] = true)
    by reflexivity.
  split; [exact H|].
  destruct (connection_follows_last_event [EvDisconnected]
              [EvQr [0x31] 7; EvAuthenticated] H) as [Hset _].
  exact Hset.
Defined.

(** * What the pipeline keeps *)

Section Kept.

Context {unicode : UnicodeData} {quotes : QuoteTemplate}.

(** X21.  The whole pipeline keeps every character that is no delimiter
    character, no letter, no digit, not U+0027 and none of the characters
    the pipeline writes (surrogates, U+0336, U+200B and what the template
    of the single-quote replacement writes): blanks, line feeds, double
    quotes and punctuation come out as often as they went in.  The
    delimiter characters themselves never get more. *)
Theorem convert_keeps_other_characters (x : Z) (text : jsstring) :
  is_surrogate x = false -> x <> 0x0336 -> x <> ZWSP ->
  x <> 0x27 -> occurs x (singleQuoteOpen ++ singleQuoteClose) = false ->
  (count x (convertToIOSStyle text) <= count x text)%nat
  /\ (is_delimiter_char x = false -> is_letter x = false -> is_digit x = false ->
      count x (convertToIOSStyle text) = count x text).
Proof.
  intros Hs Hm Hz Hq Ht. rewrite convert_unfold, count_improveEmojiSpacing by exact Hz.
  unfold beforeEmojiSpacing.
  assert (Hquotes : forall s, count x (convertQuotes s) = count x s).
  { intros s. unfold count. f_equal. apply filter_convertQuotes.
    - now apply Z.eqb_neq.
    - apply forallb_forall. intros u Hin. apply negb_true_iff.
      apply Z.eqb_neq. intros ->.
      apply occurs_false in Ht. contradiction. }
  rewrite Hquotes. split.
  - pose proof (count_rewrite_le Bold x text Hs Hm) as H1.
    pose proof (count_rewrite_le Italic x (convertBold text) Hs Hm) as H2.
    pose proof (count_rewrite_le Strikethrough x
                  (convertItalic (convertBold text)) Hs Hm) as H3.
    pose proof (count_rewrite_le Monospace x
                  (convertStrikethrough (convertItalic (convertBold text))) Hs Hm) as H4.
    cbn [rewrite] in *. lia.
  - intros Hd Hl Hg.
    assert (Hk : forall k, x <> delimiter_char k).
    { intros k ->. destruct k; discriminate. }
    pose proof (count_rewrite_other Bold x text (Hk _) Hs Hm Hl Hg) as H1.
    pose proof (count_rewrite_other Italic x (convertBold text) (Hk _) Hs Hm Hl Hg) as H2.
    pose proof (count_rewrite_other Strikethrough x
                  (convertItalic (convertBold text)) (Hk _) Hs Hm Hl Hg) as H3.
    pose proof (count_rewrite_other Monospace x
                  (convertStrikethrough (convertItalic (convertBold text)))
                  (Hk _) Hs Hm Hl Hg) as H4.
    cbn [rewrite] in *. congruence.
Qed.

End Kept.

(** The blanks and the double quotes of [*a b* ] U+0022 [c] U+0022 ['d'],
    with curly quotes in the second template. *)
Lemma convert_keeps_other_characters_witness :
  is_surrogate 0x22 = false
  /\ occurs 0x22 (@singleQuoteOpen CurlyQuotes ++ @singleQuoteClose CurlyQuotes) = false
  /\ count 0x22 (@convertToIOSStyle Unicode14 CurlyQuotes
                   [0x2A; 0x61; 0x20; 0x62; 0x2A; 0x20; 0x22; 0x63; 0x22;
                    0x27; 0x64; 0x27])
     = count 0x22 [0x2A; 0x61; 0x20; 0x62; 0x2A; 0x20; 0x22; 0x63; 0x22;
                   0x27; 0x64; 0x27].
Proof.
  assert (H1 : is_surrogate 0x22 = false) by (vm_compute; reflexivity).
  assert (H2 : 0x22 <> 0x0336) by discriminate.
  assert (H3 : 0x22 <> ZWSP) by discriminate.
  assert (H4 : 0x22 <> 0x27) by discriminate.
  assert (H5 : occurs 0x22 (@singleQuoteOpen CurlyQuotes ++ @singleQuoteClose CurlyQuotes)
               = false) by (vm_compute; reflexivity).
  split; [exact H1|]. split; [exact H5|].
  destruct (@convert_keeps_other_characters Unicode14 CurlyQuotes 0x22
              [0x2A; 0x61; 0x20; 0x62; 0x2A; 0x20; 0x22; 0x63; 0x22; 0x27; 0x64; 0x27]
              H1 H2 H3 H4 H5) as [_ Hsame].
  refine (Hsame _ _ _); vm_compute; reflexivity.
Defined.
